(** * lockbox [write] command: schema-driven ingestion

    A shallow embedding of [cmd/lockbox/cmd/write.go]: the adapters that turn
    sample data, CSV files, JSON files, blob files and Parquet batches into one
    Arrow record for the lockbox schema, and the concatenation of records.

    Layout of the development:
    - [Arrow]: the parts of arrow-go the adapters call (data types, fields,
      arrays, builders, [NewRecord] and its validation, [Concatenate]);
    - [GoLib]: the parts of Go's standard library they call ([strconv.ParseInt],
      [time.Parse] with the RFC 3339 layout, the [Unix*] projections, float to
      integer conversion, the [encoding/csv] reader, the [encoding/json]
      decoder);
    - the functions of write.go, in the order of the source;
    - the properties. *)

From Stdlib Require Import ZArith String Ascii List Bool Lia.
From Stdlib Require Import DecimalString.
From Stdlib Require Import Floats.PrimFloat Floats.FloatOps Floats.SpecFloat.
From Stdlib Require Import Numbers.Cyclic.Int63.Uint63.
From stdpp Require Import base option list gmap strings.

(** ** Outcomes of a Go call

    A Go function of type [(T, error)] either returns a value, returns an
    error, or panics (an index out of range, a failed type assertion, or a
    panic raised by a library). *)

Inductive PanicMsg :=
| IndexOutOfRange
| TypeAssertionFailed
| RecordInvalid (msg : string).

Inductive result (E A : Type) :=
| Ok (a : A)
| Err (e : E)
| Panic (p : PanicMsg).
Arguments Ok {E A} a.
Arguments Err {E A} e.
Arguments Panic {E A} p.

Definition bind {E A B} (r : result E A) (k : A -> result E B) : result E B :=
  match r with
  | Ok a => k a
  | Err e => Err e
  | Panic p => Panic p
  end.

Declare Scope go_scope.
Delimit Scope go_scope with go.
Notation "x <- r ;; k" := (bind r (fun x => k))
  (at level 100, r at next level, right associativity) : go_scope.
Open Scope go_scope.

(** ** Machine integers

    [int64] and [int32] values are integers of [Z] in the signed range; an
    operation that can leave the range wraps around. *)

Definition wrap (bits : Z) (z : Z) : Z :=
  ((z + 2 ^ (bits - 1)) mod 2 ^ bits - 2 ^ (bits - 1))%Z.

Definition fits (bits : Z) (z : Z) : bool :=
  ((- 2 ^ (bits - 1) <=? z) && (z <? 2 ^ (bits - 1)))%Z.

Definition int64 (z : Z) : Z := wrap 64 z.
Definition int32 (z : Z) : Z := wrap 32 z.

(** ** arrow-go *)

Module Arrow.

(** [arrow.TimeUnit] is an integer type with four named values. *)
Inductive TimeUnit :=
| Second
| Millisecond
| Microsecond
| Nanosecond
| UnitOther (code : Z).

(** [arrow.DataType]: the types write.go distinguishes, and every other type
    (Boolean, lists, ...) under its name. *)
Inductive DataType :=
| Int64Type
| Int32Type
| Float64Type
| StringType
| BinaryType
| LargeBinaryType
| TimestampType (Unit : TimeUnit) (TimeZone : string)
| OtherType (name : string).

#[global] Instance TimeUnit_eq_dec : EqDecision TimeUnit.
Proof. solve_decision. Defined.

#[global] Instance DataType_eq_dec : EqDecision DataType.
Proof. solve_decision. Defined.

(** [arrow.TypeEqual] on these types is structural equality. *)
Definition TypeEqual (a b : DataType) : bool := bool_decide (a = b).

(** [arrow.Field] (metadata left out) and [arrow.Schema]. *)
Record Field := mkField {
  Name : string;
  Type_ : DataType;
  Nullable : bool
}.

#[global] Instance Field_eq_dec : EqDecision Field.
Proof. solve_decision. Defined.

Record Schema := mkSchema { Fields : list Field }.

#[global] Instance Schema_eq_dec : EqDecision Schema.
Proof. solve_decision. Defined.

(** [Schema.Equal]: the same number of fields, and equal fields in order. *)
Definition Schema_Equal (a b : Schema) : bool := bool_decide (a = b).

(** One slot of an array: a value of the array's type, or null ([None]). *)
Inductive Value :=
| VInt64 (v : Z)
| VInt32 (v : Z)
| VFloat64 (v : float)
| VString (s : string)
| VBinary (b : list Byte.byte)
| VTimestamp (v : Z).

(** [arrow.Array]: an immutable typed column. *)
Record Array := mkArray {
  DataType_ : DataType;
  Data : list (option Value)
}.

Definition Len (a : Array) : nat := length (Data a).

(** [array.Builder]: the typed accumulators. A builder is identified by the
    type of the array it builds: [Int64Builder] builds [Int64Type],
    [BinaryBuilder] builds [BinaryType] or [LargeBinaryType], and so on. *)
Record Builder := mkBuilder {
  b_type : DataType;
  b_data : list (option Value)
}.

Definition NewInt64Builder : Builder := mkBuilder Int64Type [].
Definition NewInt32Builder : Builder := mkBuilder Int32Type [].
Definition NewFloat64Builder : Builder := mkBuilder Float64Type [].
Definition NewStringBuilder : Builder := mkBuilder StringType [].
Definition NewTimestampBuilder (u : TimeUnit) (tz : string) : Builder :=
  mkBuilder (TimestampType u tz) [].
Definition NewBinaryBuilder (dt : DataType) : Builder := mkBuilder dt [].

(** [b.Append(v)] and [b.AppendNull()] add one slot at the end. *)
Definition push (v : option Value) (b : Builder) : Builder :=
  mkBuilder (b_type b) (b_data b ++ [v]).

Definition AppendNull (b : Builder) : Builder := push None b.

(** [b.NewArray()]. *)
Definition NewArray (b : Builder) : Array := mkArray (b_type b) (b_data b).

(** The dynamic type tests of a type assertion on a builder, one per builder
    type ([array.Int64Builder], ...). *)
Definition isInt64Builder (b : Builder) : bool := bool_decide (b_type b = Int64Type).
Definition isInt32Builder (b : Builder) : bool := bool_decide (b_type b = Int32Type).
Definition isFloat64Builder (b : Builder) : bool := bool_decide (b_type b = Float64Type).
Definition isStringBuilder (b : Builder) : bool := bool_decide (b_type b = StringType).
Definition isTimestampBuilder (b : Builder) : bool :=
  match b_type b with TimestampType _ _ => true | _ => false end.
Definition isBinaryBuilder (b : Builder) : bool :=
  match b_type b with BinaryType | LargeBinaryType => true | _ => false end.

(** [arrow.Record]: a schema, its columns and a row count. *)
Record ArrowRecord := mkRecord {
  rec_schema : Schema;
  rec_columns : list Array;
  rec_rows : Z
}.

Definition NumRows (r : ArrowRecord) : Z := rec_rows r.

(** [simpleRecord.validate]: an empty record with no column is valid; else the
    number of columns is the number of fields, no column is shorter than the
    row count, and column [i] has the type of field [i]. *)
Fixpoint validate_columns (fs : list Field) (arrs : list Array) (rows : Z) : option string :=
  match arrs, fs with
  | [], _ => None
  | arr :: arrs', f :: fs' =>
      if (Z.of_nat (Len arr) <? rows)%Z then Some "mismatch number of rows in column"
      else if negb (TypeEqual (Type_ f) (DataType_ arr)) then Some "column type mismatch"
      else validate_columns fs' arrs' rows
  | _ :: _, [] => Some "number of columns/fields mismatch"
  end.

Definition validate (schema : Schema) (arrs : list Array) (rows : Z) : option string :=
  if ((rows =? 0)%Z && (length arrs =? 0)%nat) then None
  else if negb (length arrs =? length (Fields schema))%nat
       then Some "number of columns/fields mismatch"
       else validate_columns (Fields schema) arrs rows.

(** [array.NewRecord(schema, cols, nrows)]: a negative [nrows] stands for the
    length of the first column; the call panics when the columns and the
    schema are inconsistent. *)
Definition NewRecord {E} (schema : Schema) (cols : list Array) (nrows : Z)
  : result E ArrowRecord :=
  let rows :=
    if (nrows <? 0)%Z then
      match cols with
      | [] => 0%Z
      | c :: _ => Z.of_nat (Len c)
      end
    else nrows in
  match validate schema cols rows with
  | None => Ok (mkRecord schema cols rows)
  | Some msg => Panic (RecordInvalid msg)
  end.

(** [rec.Column(i)] indexes the slice of columns. *)
Definition Column {E} (r : ArrowRecord) (i : nat) : result E Array :=
  match rec_columns r !! i with
  | Some a => Ok a
  | None => Panic IndexOutOfRange
  end.

(** [array.Concatenate]: fails on no array and on arrays of different types;
    else the slots of the arrays one after the other. *)
Inductive ConcatError := ConcatEmpty | ConcatTypeMismatch.

Definition Concatenate (arrs : list Array) : ConcatError + Array :=
  match arrs with
  | [] => inl ConcatEmpty
  | a :: rest =>
      if forallb (fun b => TypeEqual (DataType_ a) (DataType_ b)) rest
      then inr (mkArray (DataType_ a) (concat (map Data arrs)))
      else inl ConcatTypeMismatch
  end.

End Arrow.
Export Arrow.

(** ** Go's standard library *)

Module GoLib.

Local Open Scope Z_scope.

(** *** strconv.ParseInt(s, 10, bitSize)

    An optional sign, then one or more decimal digits; the value must fit in
    [bitSize] bits. A syntax error and a range error both return a non-nil
    error, which is all the callers look at: [None]. *)

Definition digit_of (c : ascii) : option Z :=
  let n := Z.of_N (N_of_ascii c) in
  if (48 <=? n) && (n <=? 57) then Some (n - 48) else None.

Fixpoint digits_value (s : string) (acc : Z) : option Z :=
  match s with
  | EmptyString => Some acc
  | String c s' =>
      match digit_of c with
      | Some d => digits_value s' (acc * 10 + d)
      | None => None
      end
  end.

Definition ParseUint (s : string) : option Z :=
  match s with
  | EmptyString => None
  | _ => digits_value s 0
  end.

Definition ParseInt (s : string) (bitSize : Z) : option Z :=
  match s with
  | EmptyString => None
  | String c s' =>
      let '(neg, body) :=
        if Ascii.eqb c "+" then (false, s')
        else if Ascii.eqb c "-" then (true, s')
        else (false, s) in
      match ParseUint body with
      | None => None
      | Some un =>
          let cutoff := 2 ^ (bitSize - 1) in
          if negb neg && (cutoff <=? un) then None
          else if neg && (cutoff <? un) then None
          else Some (if neg then - un else un)
      end
  end.

(** *** time

    A [time.Time] as the instant it denotes: seconds since the Unix epoch and
    nanoseconds within the second, [0 <= nsec < 10^9]. The location does not
    enter the [Unix*] projections. *)

Record Time := mkTime { unixSec : Z; nsec : Z }.

Definition isLeap (year : Z) : bool :=
  (year mod 4 =? 0) && (negb (year mod 100 =? 0) || (year mod 400 =? 0)).

(** [daysBefore[m]]: days in a non-leap year before month [m + 1]. *)
Definition daysBefore (m : Z) : Z :=
  nth (Z.to_nat m) [0; 31; 59; 90; 120; 151; 181; 212; 243; 273; 304; 334; 365] 0.

Definition daysIn (month year : Z) : Z :=
  if (month =? 2) && isLeap year then 29
  else daysBefore month - daysBefore (month - 1).

(** Leap years among the years [1 .. n] (proleptic Gregorian calendar). *)
Definition leapsThrough (n : Z) : Z := n / 4 - n / 100 + n / 400.

(** Days from 1970-01-01 to January 1st of [year]. *)
Definition daysSinceEpoch (year : Z) : Z :=
  365 * (year - 1970) + (leapsThrough (year - 1) - leapsThrough 1969).

(** [time.Date(year, month, day, hour, min, sec, nsec, time.UTC)] for arguments
    in their normal ranges. *)
Definition Date (year month day hour min sec ns : Z) : Time :=
  let d := daysSinceEpoch year + daysBefore (month - 1)
           + (if isLeap year && (3 <=? month) then 1 else 0)
           + (day - 1) in
  mkTime (d * 86400 + hour * 3600 + min * 60 + sec) ns.

(** The RFC 3339 path of [time.Parse] ([parseRFC3339] in format_rfc3339.go):
    [YYYY-MM-DDTHH:MM:SS], an optional fraction [.d+], then [Z] or an offset
    [+hh:mm] / [-hh:mm]. *)

Definition isDigit (c : ascii) : bool :=
  match digit_of c with Some _ => true | None => false end.

Fixpoint parseUint_loop (cs : list ascii) (x : Z) : option Z :=
  match cs with
  | [] => Some x
  | c :: cs' =>
      match digit_of c with
      | Some d => parseUint_loop cs' (x * 10 + d)
      | None => None
      end
  end.

Definition parseUint (cs : list ascii) (min max : Z) : option Z :=
  x ← parseUint_loop cs 0;
  if (x <? min) || (max <? x) then None else Some x.

(** [s[i:j]] and [s[i] == c]. *)
Definition slice (cs : list ascii) (i j : nat) : list ascii := take (j - i) (drop i cs).
Definition charAt (cs : list ascii) (i : nat) (c : ascii) : bool :=
  match cs !! i with Some c' => Ascii.eqb c' c | None => false end.

(** [parseNanoseconds]: the first nine digits of the fraction count, scaled to
    nanoseconds; further digits are dropped. *)
Definition parseNanoseconds (digits : list ascii) : Z :=
  let kept := take 9 digits in
  match parseUint_loop kept 0 with
  | Some n => n * 10 ^ Z.of_nat (9 - length kept)
  | None => 0
  end.

Fixpoint span_digits (cs : list ascii) : list ascii * list ascii :=
  match cs with
  | c :: cs' =>
      if isDigit c then let '(ds, rest) := span_digits cs' in (c :: ds, rest)
      else ([], cs)
  | [] => ([], [])
  end.

Definition parseZone (s : list ascii) : option Z :=
  match s with
  | [c] => if Ascii.eqb c "Z" then Some 0 else None
  | _ =>
      if negb (length s =? 6)%nat then None
      else
        hr ← parseUint (slice s 1 3) 0 23;
        mm ← parseUint (slice s 4 6) 0 59;
        if negb ((charAt s 0 "-" || charAt s 0 "+") && charAt s 3 ":") then None
        else
          let zoneOffset := (hr * 60 + mm) * 60 in
          Some (if charAt s 0 "-" then - zoneOffset else zoneOffset)
  end.

Definition parseRFC3339 (value : string) : option Time :=
  let s := list_ascii_of_string value in
  if (length s <? 19)%nat then None
  else
    year ← parseUint (slice s 0 4) 0 9999;
    month ← parseUint (slice s 5 7) 1 12;
    day ← parseUint (slice s 8 10) 1 (daysIn month year);
    hour ← parseUint (slice s 11 13) 0 23;
    min ← parseUint (slice s 14 16) 0 59;
    sec ← parseUint (slice s 17 19) 0 59;
    if negb (charAt s 4 "-" && charAt s 7 "-" && charAt s 10 "T"
             && charAt s 13 ":" && charAt s 16 ":") then None
    else
      let s := drop 19 s in
      let '(ns, s) :=
        match s with
        | dot :: d :: _ =>
            if Ascii.eqb dot "." && isDigit d
            then let '(ds, rest) := span_digits (drop 1 s) in (parseNanoseconds ds, rest)
            else (0, s)
        | _ => (0, s)
        end in
      zoneOffset ← parseZone s;
      let t := Date year month day hour min sec ns in
      Some (mkTime (unixSec t - zoneOffset) (nsec t)).

(** [t.Unix()], [t.UnixMilli()], [t.UnixMicro()], [t.UnixNano()]: [int64]
    arithmetic on the seconds and the nanoseconds of [t]. *)
Definition Unix (t : Time) : Z := unixSec t.
Definition UnixMilli (t : Time) : Z := int64 (unixSec t * 1000 + nsec t ÷ 1000000).
Definition UnixMicro (t : Time) : Z := int64 (unixSec t * 1000000 + nsec t ÷ 1000).
Definition UnixNano (t : Time) : Z := int64 (unixSec t * 1000000000 + nsec t).

(** *** float64 to integer conversion

    The fraction is discarded (truncation towards zero). When the truncated
    value does not fit the target, or the float is an infinity or a NaN, the
    conversion still succeeds and the value depends on the implementation:
    [undef] stands for it. *)

Definition truncate (f : float) : option Z :=
  match Prim2SF f with
  | S754_zero _ => Some 0
  | S754_finite s m e =>
      let mag := if 0 <=? e then Z.shiftl (Z.pos m) e else Z.shiftr (Z.pos m) (- e) in
      Some (if s then - mag else mag)
  | S754_infinity _ | S754_nan => None
  end.

Definition floatToInt (bits : Z) (undef : Z -> float -> Z) (f : float) : Z :=
  match truncate f with
  | Some z => if fits bits z then z else wrap bits (undef bits f)
  | None => wrap bits (undef bits f)
  end.

(** *** encoding/csv

    The file after lexing: its records in order, each the list of its fields,
    or a record the lexer rejects (a bare quote, ...). A [csv.Reader] made by
    [csv.NewReader] has [FieldsPerRecord = 0]: the first [Read] sets it to the
    number of fields of the first record, and every later record with another
    number of fields is returned with [ErrFieldCount]. *)

Inductive CSVLine :=
| CSVFields (fields : list string)
| CSVMalformed.

Record Reader := mkReader {
  FieldsPerRecord : Z;
  pending : list CSVLine
}.

Definition NewReader (f : list CSVLine) : Reader := mkReader 0 f.

Inductive csvError := ErrFieldCount | ErrParse.

Inductive ReadResult :=
| ReadEOF
| ReadError (e : csvError)
| ReadRecord (row : list string).

Definition Read (r : Reader) : ReadResult * Reader :=
  match pending r with
  | [] => (ReadEOF, r)
  | CSVMalformed :: rest => (ReadError ErrParse, mkReader (FieldsPerRecord r) rest)
  | CSVFields row :: rest =>
      if 0 <? FieldsPerRecord r then
        if negb (Z.of_nat (length row) =? FieldsPerRecord r)
        then (ReadError ErrFieldCount, mkReader (FieldsPerRecord r) rest)
        else (ReadRecord row, mkReader (FieldsPerRecord r) rest)
      else if FieldsPerRecord r =? 0 then
        (ReadRecord row, mkReader (Z.of_nat (length row)) rest)
      else (ReadRecord row, mkReader (FieldsPerRecord r) rest)
  end.

(** *** encoding/json

    A decoded JSON value: numbers arrive as [float64], objects as maps. *)

#[warnings="-register-all"]
Inductive JValue :=
| JNull
| JBool (b : bool)
| JNumber (f : float)
| JString (s : string)
| JArray (l : list JValue)
| JObject (m : gmap string JValue).

(** A file read by a [json.Decoder]: the top-level JSON values it holds, in
    order, and whether text that is not JSON follows the last of them. *)
Record JSONText := mkJSONText {
  js_values : list JValue;
  js_malformed_tail : bool
}.

Inductive DecodeError := DecEOF | DecSyntax | DecUnmarshalType.

(** Unmarshalling into [map[string]interface{}]: an object gives its map,
    [null] the nil map (which reads as the empty map). *)
Definition asMap (v : JValue) : option (gmap string JValue) :=
  match v with
  | JObject m => Some m
  | JNull => Some ∅
  | _ => None
  end.

(** Unmarshalling into [[]map[string]interface{}]: an array of such, or
    [null] for the nil slice. *)
Definition asMaps (v : JValue) : option (list (gmap string JValue)) :=
  match v with
  | JArray l => mapM asMap l
  | JNull => Some []
  | _ => None
  end.

(** [dec.Decode(&x)]: reads the next value of the input and unmarshals it. *)
Definition Decode {T} (conv : JValue -> option T) (d : JSONText)
  : (DecodeError + T) * JSONText :=
  match js_values d with
  | [] => (inl (if js_malformed_tail d then DecSyntax else DecEOF), d)
  | v :: rest =>
      (match conv v with Some x => inr x | None => inl DecUnmarshalType end,
       mkJSONText rest (js_malformed_tail d))
  end.

End GoLib.
Export GoLib.

(** ** Errors of write.go

    Every [fmt.Errorf] of the file, by its format string. *)

Inductive Error :=
| ErrUnsupportedType (t : DataType)                        (* "unsupported type: %v" *)
| ErrOpenFile                                              (* "failed to open file: %w" *)
| ErrCSVHeader                                             (* "failed to read CSV header: %w" *)
| ErrReadingRow (rowNum : nat) (cause : csvError)          (* "error reading row %d: %w" *)
| ErrRowFieldCount (rowNum expected got : nat)             (* "row %d: expected %d fields, got %d" *)
| ErrInvalidInt64 (rowNum : nat) (col val : string)        (* "row %d, col %s: invalid int64: %s" *)
| ErrInvalidInt32 (rowNum : nat) (col val : string)        (* "row %d, col %s: invalid int32: %s" *)
| ErrInvalidFloat64 (rowNum : nat) (col val : string)      (* "row %d, col %s: invalid float64: %s" *)
| ErrInvalidTimestamp (rowNum : nat) (col val : string)    (* "row %d, col %s: invalid timestamp: %s" *)
| ErrUnknownTimestampUnit (u : TimeUnit)                   (* "unknown timestamp unit: %v" *)
| ErrUnsupportedTypeAt (rowNum : nat) (col : string) (t : DataType)
                                                           (* "unsupported type in row %d, col %s: %v" *)
| ErrSeekFailed (cause : DecodeError)                      (* "invalid JSON format, and seek failed: %w" *)
| ErrJSONDecode (cause : DecodeError)                      (* "JSON decode error: %w" *)
| ErrMissingNonNullable (rowNum : nat) (name : string)     (* "row %d: missing non-nullable field '%s'" *)
| ErrExpectedInt64 (rowNum : nat) (col : string) (got : JValue)   (* "row %d, col %s: expected int64, got %T" *)
| ErrExpectedInt32 (rowNum : nat) (col : string) (got : JValue)   (* "row %d, col %s: expected int32, got %T" *)
| ErrExpectedFloat64 (rowNum : nat) (col : string) (got : JValue) (* "row %d, col %s: expected float64, got %T" *)
| ErrInvalidTimestampType (rowNum : nat) (col : string) (got : JValue)
                                                           (* "row %d, col %s: invalid timestamp type: %T" *)
| ErrReadBlob (name : string)                              (* "read blob %s: %w" *)
| ErrOpenParquet                                           (* "failed to open parquet file: %w" *)
| ErrReadParquet                                           (* "failed to read parquet file: %w" *)
| ErrCreateParquetReader                                   (* "failed to create parquet reader: %w" *)
| ErrParquetSchema                                         (* "failed to get parquet schema: %w" *)
| ErrRecordReader                                          (* "failed to get record reader: %w" *)
| ErrNoData                                                (* "no data found in Parquet file" *)
| ErrConcatenate (cause : ConcatError)                     (* the error of array.Concatenate *)
| ErrCoerce (msg : string).                                (* an error of lockbox.CoerceRecord *)

Abbreviation res := (result Error).

(** ** What write.go takes from outside

    Library functions whose results the adapters pass on without looking into
    them, and the one function of the repository that write.go calls and that
    is not part of it. *)

Record Platform := mkPlatform {
  (** [strconv.ParseFloat(s, 64)]; [None] for a non-nil error. *)
  ParseFloat : string -> option float;
  (** [time.Parse]'s layout-driven parser, used for the values that the
      RFC 3339 path rejects. *)
  parseLayout : string -> option Time;
  (** The implementation-dependent value of a float to integer conversion
      whose result does not fit (argument: the width in bits). *)
  convUndefined : Z -> float -> Z;
  (** [fmt.Sprintf("%v", val)] on a decoded JSON value. *)
  Sprint : JValue -> string;
  (** [lockbox.CoerceRecord(schema, rec)] of pkg/lockbox. *)
  CoerceRecord : Schema -> ArrowRecord -> res ArrowRecord
}.

(** [time.Parse(time.RFC3339, val)]. *)
Definition time_Parse (P : Platform) (val : string) : option Time :=
  match parseRFC3339 val with
  | Some t => Some t
  | None => parseLayout P val
  end.

(** ** Helpers for loops *)

(** A loop that appends one result per element and stops at the first error. *)
Fixpoint mapR {A B} (f : A -> res B) (l : list A) : res (list B) :=
  match l with
  | [] => Ok []
  | x :: l' => y <- f x ;; ys <- mapR f l' ;; Ok (y :: ys)
  end.

(** [for i, x := range xs { body }], started at index [i], where the body
    updates a state and may return early with an error. *)
Fixpoint rangeFrom {A St} (body : nat -> A -> St -> res St) (i : nat) (xs : list A)
    (s : St) : res St :=
  match xs with
  | [] => Ok s
  | x :: xs' => s' <- body i x s ;; rangeFrom body (S i) xs' s'
  end.

Definition forRange {A St} (body : nat -> A -> St -> res St) (xs : list A) (s : St)
  : res St :=
  rangeFrom body 0 xs s.

(** [Append(v)] or [AppendNull()] on [builders[i]] after a type assertion to
    a builder type: index, assertion, append. *)
Definition appendTo (isT : Builder -> bool) (i : nat) (v : option Value)
    (builders : list Builder) : res (list Builder) :=
  match builders !! i with
  | None => Panic IndexOutOfRange
  | Some b =>
      if isT b then Ok (<[i := push v b]> builders)
      else Panic TypeAssertionFailed
  end.

(** [builders[i].AppendNull()] through the [array.Builder] interface. *)
Definition appendNullAt (i : nat) (builders : list Builder) : res (list Builder) :=
  appendTo (fun _ => true) i None builders.

(** [fmt.Sprintf("%d", n)]. *)
Definition itoa (n : Z) : string := NilZero.string_of_int (Z.to_int n).

(** [float64(i)] for a small non-negative [int]. *)
Definition float64_of_int (i : Z) : float := of_uint63 (of_Z i).

(** ** write.go *)

Section WriteGo.

Context (P : Platform).

Local Open Scope string_scope.

(** *** concatRecords (lines 177-214) *)

Definition concatColumn (records : list ArrowRecord) (i : nat) : res Array :=
  arraysToConcat <- mapR (fun rec => Column rec i) records ;;
  match Concatenate arraysToConcat with
  | inr out => Ok out
  | inl e => Err (ErrConcatenate e)
  end.

Definition totalRows (records : list ArrowRecord) : Z :=
  fold_left (fun total rec => int64 (total + NumRows rec)) records 0%Z.

Definition concatRecords (schema : Schema) (records : list ArrowRecord)
  : res (option ArrowRecord) :=
  match records with
  | [] => Ok None
  | _ =>
      let numFields := length (Fields schema) in
      concatArrays <- mapR (concatColumn records) (seq 0 numFields) ;;
      rec <- NewRecord schema concatArrays (totalRows records) ;;
      Ok (Some rec)
  end.

(** *** generateSampleData (lines 217-283) *)

Definition numRows : nat := 5.

(** The loop [for i := 0; i < numRows; i++ { builder.Append(f(i)) }]. *)
Definition appendRows (f : Z -> Value) (b : Builder) : Builder :=
  fold_left (fun b i => push (Some (f (Z.of_nat i))) b) (seq 0 numRows) b.

Definition sampleColumn (field : Field) : Array :=
  match Type_ field with
  | Int64Type =>
      NewArray (appendRows (fun i => VInt64 (int64 (i + 1))) NewInt64Builder)
  | Int32Type =>
      NewArray (appendRows (fun i => VInt32 (int32 (20 + i))) NewInt32Builder)
  | StringType =>
      NewArray (appendRows (fun i =>
        if String.eqb (Name field) "name" then VString ("User" ++ itoa (i + 1))
        else if String.eqb (Name field) "email"
             then VString ("user" ++ itoa (i + 1) ++ "@example.com")
             else VString ("sample_" ++ Name field ++ "_" ++ itoa (i + 1)))
        NewStringBuilder)
  | Float64Type =>
      NewArray (appendRows (fun i => VFloat64 (float64_of_int i * 1.5)%float) NewFloat64Builder)
  | _ =>
      (* Default to string for unsupported types *)
      NewArray (appendRows (fun i => VString ("default_" ++ itoa (i + 1))) NewStringBuilder)
  end.

Definition generateSampleData (schema : Schema) : res ArrowRecord :=
  let arrays := map sampleColumn (Fields schema) in
  NewRecord schema arrays (Z.of_nat numRows).

(** *** The builders of loadDataFromFile (lines 294-310) and of
    loadDataFromJSON (lines 429-445): the same switch. *)

Definition newBuilder (field : Field) : res Builder :=
  match Type_ field with
  | Int64Type => Ok NewInt64Builder
  | Int32Type => Ok NewInt32Builder
  | Float64Type => Ok NewFloat64Builder
  | StringType => Ok NewStringBuilder
  | TimestampType u tz => Ok (NewTimestampBuilder u tz)
  | t => Err (ErrUnsupportedType t)
  end.

Definition makeBuilders (schema : Schema) : res (list Builder) :=
  mapR newBuilder (Fields schema).

(** The switch on [typ.Unit] (lines 386-398 and 562-574). *)
Definition epochOf (u : TimeUnit) (tm : Time) : res Z :=
  match u with
  | Second => Ok (Unix tm)
  | Millisecond => Ok (UnixMilli tm)
  | Microsecond => Ok (UnixMicro tm)
  | Nanosecond => Ok (UnixNano tm)
  | UnitOther _ => Err (ErrUnknownTimestampUnit u)
  end.

(** The end of both loaders: arrays from the builders, the row count from the
    first array, the record (lines 406-421 and 585-597). *)
Definition buildRecord (schema : Schema) (builders : list Builder) : res ArrowRecord :=
  let arrays := map NewArray builders in
  match arrays with
  | [] => Panic IndexOutOfRange
  | a0 :: _ => NewRecord schema arrays (Z.of_nat (Len a0))
  end.

(** *** loadDataFromFile (lines 287-422) *)

(** The body of [for i, val := range row] (lines 339-402). *)
Definition csvCell (schema : Schema) (rowNum i : nat) (val : string)
    (builders : list Builder) : res (list Builder) :=
  match Fields schema !! i with
  | None => Panic IndexOutOfRange
  | Some field =>
      match Type_ field with
      | Int64Type =>
          if String.eqb val "" && Nullable field
          then appendTo isInt64Builder i None builders
          else match ParseInt val 64 with
               | None => Err (ErrInvalidInt64 rowNum (Name field) val)
               | Some v => appendTo isInt64Builder i (Some (VInt64 v)) builders
               end
      | Int32Type =>
          if String.eqb val "" && Nullable field
          then appendTo isInt32Builder i None builders
          else match ParseInt val 32 with
               | None => Err (ErrInvalidInt32 rowNum (Name field) val)
               | Some v => appendTo isInt32Builder i (Some (VInt32 (int32 v))) builders
               end
      | Float64Type =>
          if String.eqb val "" && Nullable field
          then appendTo isFloat64Builder i None builders
          else match ParseFloat P val with
               | None => Err (ErrInvalidFloat64 rowNum (Name field) val)
               | Some v => appendTo isFloat64Builder i (Some (VFloat64 v)) builders
               end
      | StringType =>
          if String.eqb val "" && Nullable field
          then appendTo isStringBuilder i None builders
          else appendTo isStringBuilder i (Some (VString val)) builders
      | TimestampType u _ =>
          if String.eqb val "" && Nullable field
          then appendTo isTimestampBuilder i None builders
          else match time_Parse P val with
               | None => Err (ErrInvalidTimestamp rowNum (Name field) val)
               | Some tm =>
                   epoch <- epochOf u tm ;;
                   appendTo isTimestampBuilder i (Some (VTimestamp epoch)) builders
               end
      | t => Err (ErrUnsupportedTypeAt rowNum (Name field) t)
      end
  end.

(** [for i, val := range row] (lines 338-403). *)
Definition csvRow (schema : Schema) (rowNum : nat) (row : list string)
    (builders : list Builder) : res (list Builder) :=
  forRange (csvCell schema rowNum) row builders.

(** One [rdr.Read()] on the next record of the file, for a reader whose
    [FieldsPerRecord] is [fpr]. *)
Definition readLine (fpr : Z) (line : CSVLine) : ReadResult * Z :=
  let '(r, rdr) := Read (mkReader fpr [line]) in (r, FieldsPerRecord rdr).

(** The loop [for rowNum := 2; ; rowNum++] (lines 326-404); it ends at
    [io.EOF], when no record is left. *)
Fixpoint csvRows (schema : Schema) (rowNum : nat) (fpr : Z) (lines : list CSVLine)
    (builders : list Builder) : res (list Builder) :=
  match lines with
  | [] => Ok builders
  | line :: rest =>
      match readLine fpr line with
      | (ReadEOF, _) => Ok builders
      | (ReadError e, _) => Err (ErrReadingRow rowNum e)
      | (ReadRecord row, fpr') =>
          let numFields := length (Fields schema) in
          if negb (length row =? numFields)%nat
          then Err (ErrRowFieldCount rowNum numFields (length row))
          else
            builders' <- csvRow schema rowNum row builders ;;
            csvRows schema (S rowNum) fpr' rest builders'
      end
  end.

(** [file]: what [os.Open(filename)] finds, [None] when it fails. *)
Definition loadDataFromFile (file : option (list CSVLine)) (schema : Schema)
  : res ArrowRecord :=
  builders <- makeBuilders schema ;;
  match file with
  | None => Err ErrOpenFile
  | Some f =>
      let rdr := NewReader f in
      (* skip the header row *)
      match Read rdr with
      | (ReadRecord _, rdr') =>
          builders' <- csvRows schema 2 (FieldsPerRecord rdr') (pending rdr') builders ;;
          buildRecord schema builders'
      | _ => Err ErrCSVHeader
      end
  end.

(** *** loadDataFromJSON (lines 424-598) *)

(** An open file: its whole content, what lies at and after the current
    offset, and whether [Seek] works on it. *)
Record File := mkFile {
  contents : JSONText;
  unread : JSONText;
  seekable : bool
}.

Definition Open (text : JSONText) (canSeek : bool) : File := mkFile text text canSeek.

(** [f.Seek(0, io.SeekStart)]. *)
Definition SeekStart (f : File) : option File :=
  if seekable f then Some (mkFile (contents f) (contents f) true) else None.

(** The NDJSON loop (lines 465-474): each round is one [Decode] into a map;
    the loop ends at [io.EOF], when no value is left and no malformed text
    follows. *)
Fixpoint decodeRows (values : list JValue) (malformed_tail : bool)
    (records : list (gmap string JValue)) : res (list (gmap string JValue)) :=
  match values with
  | [] =>
      if malformed_tail then Err (ErrJSONDecode DecSyntax) else Ok records
  | v :: rest =>
      match asMap v with
      | Some row => decodeRows rest malformed_tail (records ++ [row])%list
      | None => Err (ErrJSONDecode DecUnmarshalType)
      end
  end.

(** Read JSON: try as array, else NDJSON fallback (lines 454-475). *)
Definition readRecords (f : File) : res (list (gmap string JValue)) :=
  let '(r, rest) := Decode asMaps (unread f) in
  let f := mkFile (contents f) rest (seekable f) in
  match r with
  | inr records => Ok records
  | inl err =>
      (* Reset file pointer and try NDJSON (one object per line) *)
      match SeekStart f with
      | None => Err (ErrSeekFailed err)
      | Some f =>
          let dec := unread f in
          decodeRows (js_values dec) (js_malformed_tail dec) []
      end
  end.

(** The body of [for i, field := range schema.Fields()] (lines 480-581). *)
Definition jsonCell (rowNum : nat) (rec : gmap string JValue) (i : nat) (field : Field)
    (builders : list Builder) : res (list Builder) :=
  match rec !! Name field with
  | None | Some JNull =>
      if Nullable field then appendNullAt i builders
      else Err (ErrMissingNonNullable (rowNum + 1) (Name field))
  | Some val =>
      match Type_ field with
      | Int64Type =>
          match val with
          | JNumber v =>
              appendTo isInt64Builder i
                (Some (VInt64 (floatToInt 64 (convUndefined P) v))) builders
          | JString v =>
              if String.eqb v "" && Nullable field
              then appendTo isInt64Builder i None builders
              else match ParseInt v 64 with
                   | None => Err (ErrInvalidInt64 (rowNum + 1) (Name field) v)
                   | Some num => appendTo isInt64Builder i (Some (VInt64 num)) builders
                   end
          | _ => Err (ErrExpectedInt64 (rowNum + 1) (Name field) val)
          end
      | Int32Type =>
          match val with
          | JNumber v =>
              appendTo isInt32Builder i
                (Some (VInt32 (floatToInt 32 (convUndefined P) v))) builders
          | JString v =>
              if String.eqb v "" && Nullable field
              then appendTo isInt32Builder i None builders
              else match ParseInt v 32 with
                   | None => Err (ErrInvalidInt32 (rowNum + 1) (Name field) v)
                   | Some num => appendTo isInt32Builder i (Some (VInt32 (int32 num))) builders
                   end
          | _ => Err (ErrExpectedInt32 (rowNum + 1) (Name field) val)
          end
      | Float64Type =>
          match val with
          | JNumber v => appendTo isFloat64Builder i (Some (VFloat64 v)) builders
          | JString v =>
              if String.eqb v "" && Nullable field
              then appendTo isFloat64Builder i None builders
              else match ParseFloat P v with
                   | None => Err (ErrInvalidFloat64 (rowNum + 1) (Name field) v)
                   | Some num => appendTo isFloat64Builder i (Some (VFloat64 num)) builders
                   end
          | _ => Err (ErrExpectedFloat64 (rowNum + 1) (Name field) val)
          end
      | StringType =>
          match val with
          | JString v =>
              if String.eqb v "" && Nullable field
              then appendTo isStringBuilder i None builders
              else appendTo isStringBuilder i (Some (VString v)) builders
          | _ => appendTo isStringBuilder i (Some (VString (Sprint P val))) builders
          end
      | TimestampType u _ =>
          match val with
          | JString v =>
              if String.eqb v "" && Nullable field
              then appendTo isTimestampBuilder i None builders
              else match time_Parse P v with
                   | None => Err (ErrInvalidTimestamp (rowNum + 1) (Name field) v)
                   | Some tm =>
                       epoch <- epochOf u tm ;;
                       appendTo isTimestampBuilder i (Some (VTimestamp epoch)) builders
                   end
          | _ => Err (ErrInvalidTimestampType (rowNum + 1) (Name field) val)
          end
      | t => Err (ErrUnsupportedType t)
      end
  end.

(** The loops [for rowNum, rec := range records] and
    [for i, field := range schema.Fields()] (lines 478-583). *)
Definition jsonRecord (schema : Schema) (rowNum : nat) (rec : gmap string JValue)
    (builders : list Builder) : res (list Builder) :=
  forRange (jsonCell rowNum rec) (Fields schema) builders.

Definition jsonRecords (schema : Schema) (records : list (gmap string JValue))
    (builders : list Builder) : res (list Builder) :=
  forRange (jsonRecord schema) records builders.

(** [file]: what [os.Open(filename)] finds (the text and whether the file
    can seek), [None] when it fails. *)
Definition loadDataFromJSON (file : option (JSONText * bool)) (schema : Schema)
  : res ArrowRecord :=
  builders <- makeBuilders schema ;;
  match file with
  | None => Err ErrOpenFile
  | Some (text, canSeek) =>
      records <- readRecords (Open text canSeek) ;;
      builders' <- jsonRecords schema records builders ;;
      buildRecord schema builders'
  end.

(** *** loadBlobRecord (lines 611-656) *)

Definition blobBuilder (f : Field) : Builder :=
  match Type_ f with
  | BinaryType => NewBinaryBuilder BinaryType
  | LargeBinaryType => NewBinaryBuilder LargeBinaryType
  | StringType => NewStringBuilder
  | _ => NewStringBuilder
  end.

(** The body of the second loop (lines 629-642); [fs] maps the paths that
    [os.ReadFile] can read to their bytes. *)
Definition blobCell (fs : gmap string (list Byte.byte)) (blobs : gmap string string)
    (i : nat) (f : Field) (builders : list Builder) : res (list Builder) :=
  match blobs !! Name f with
  | Some path =>
      match fs !! path with
      | None => Err (ErrReadBlob (Name f))
      | Some data =>
          match builders !! i with
          | None => Panic IndexOutOfRange
          | Some b =>
              if isBinaryBuilder b
              then Ok (<[i := push (Some (VBinary data)) b]> builders)
              else if isStringBuilder b
              then Ok (<[i := push (Some (VString (string_of_list_byte data))) b]> builders)
              else Ok builders
          end
      end
  | None => appendNullAt i builders
  end.

Definition loadBlobRecord (fs : gmap string (list Byte.byte)) (blobs : gmap string string)
    (schema : Schema) : res ArrowRecord :=
  let builders := map blobBuilder (Fields schema) in
  builders' <- forRange (blobCell fs blobs) (Fields schema) builders ;;
  let arrays := map NewArray builders' in
  NewRecord schema arrays 1.

(** *** loadDataFromORCToParquet (lines 659-725) *)

(** What the Parquet calls give for [parquetPath]: the step that fails, or the
    batches the record reader yields. *)
Inductive ParquetFile :=
| PqOpenFails
| PqNotParquet
| PqReaderFails
| PqSchemaFails
| PqRecordReaderFails
| PqBatches (batches : list ArrowRecord).

(** The loop [for recReader.Next()] (lines 699-714). *)
Fixpoint collectBatches (schema : Schema) (batches allBatches : list ArrowRecord)
  : res (list ArrowRecord) :=
  match batches with
  | [] => Ok allBatches
  | rec :: rest =>
      if negb (Schema_Equal (rec_schema rec) schema) then
        coerced <- CoerceRecord P schema rec ;;
        collectBatches schema rest (allBatches ++ [coerced])%list
      else collectBatches schema rest (allBatches ++ [rec])%list
  end.

Definition loadDataFromORCToParquet (file : ParquetFile) (schema : Schema)
  : res (option ArrowRecord) :=
  match file with
  | PqOpenFails => Err ErrOpenParquet
  | PqNotParquet => Err ErrReadParquet
  | PqReaderFails => Err ErrCreateParquetReader
  | PqSchemaFails => Err ErrParquetSchema
  | PqRecordReaderFails => Err ErrRecordReader
  | PqBatches batches =>
      allBatches <- collectBatches schema batches [] ;;
      if (length allBatches =? 0)%nat then Err ErrNoData
      else
        (* result, err := concatRecords(...); return result, nil *)
        match concatRecords schema allBatches with
        | Ok result => Ok result
        | Err _ => Ok None
        | Panic p => Panic p
        end
  end.

End WriteGo.

(** ** The command *)

(** *** parseBlobArgs (lines 600-609) *)

(** [strings.SplitN(a, "=", 2)]: the text before the first [=] and the text
    after it, or [a] alone when it holds no [=]. *)
Fixpoint cutEq (a : string) : option (string * string) :=
  match a with
  | EmptyString => None
  | String c a' =>
      if Ascii.eqb c "=" then Some (EmptyString, a')
      else match cutEq a' with
           | Some (k, v) => Some (String c k, v)
           | None => None
           end
  end.

Definition SplitN2 (a : string) : list string :=
  match cutEq a with
  | Some (k, v) => [k; v]
  | None => [a]
  end.

Definition parseBlobArgs (args : list string) : gmap string string :=
  fold_left (fun m a =>
               match SplitN2 a with
               | [k; v] => <[k := v]> m
               | _ => m
               end) args ∅.

(** *** strings.TrimSuffix *)

Definition HasSuffix (s suffix : string) : bool :=
  (String.length suffix <=? String.length s)%nat &&
  String.eqb (substring (String.length s - String.length suffix)
                (String.length suffix) s) suffix.

Definition TrimSuffix (s suffix : string) : string :=
  if HasSuffix s suffix
  then substring 0 (String.length s - String.length suffix) s
  else s.

(** *** ensurePyarrowInstalled (lines 153-175) and RunE (lines 39-129) *)

(** What the command finds outside: whether each external command succeeds,
    the password typed at the prompt, the lockbox (its schema when it opens,
    whether a write succeeds) and the input files. *)
Record World := mkWorld {
  pyarrow_imports : bool;
  pip3_installs : bool;
  pip_installs : bool;
  typed_password : option string;
  lockbox_Open : string -> string -> option Schema;
  lockbox_Write : string -> option ArrowRecord -> string -> bool;
  csv_files : string -> option (list CSVLine);
  json_files : string -> option (JSONText * bool);
  blob_files : gmap string (list Byte.byte);
  orc2parquet : string -> string -> bool;
  parquet_files : string -> ParquetFile
}.

(** The effects of a run, in order. *)
Inductive Event :=
| EvCheckPyarrow
| EvPip3Install
| EvPipInstall
| EvPromptPassword
| EvOpen (filename password : string)
| EvConvert (orcFile parquetFile : string)
| EvWrite (record : option ArrowRecord) (password : string)
| EvClose.

(** The errors of [RunE] and of [ensurePyarrowInstalled], by format string. *)
Inductive CmdError :=
| ErrPyarrow                      (* "could not ensure pyarrow is installed: %v" *)
| ErrReadPassword                 (* "failed to read password: %w" *)
| ErrOpenLockbox                  (* "failed to open lockbox: %w" *)
| ErrSampleData (cause : Error)   (* "failed to generate sample data: %w" *)
| ErrLoadBlob (cause : Error)     (* "failed to load blob data: %w" *)
| ErrLoadFile (cause : Error)     (* "failed to load data from file: %w" *)
| ErrConversion                   (* "conversion failed: %v" *)
| ErrNoSource                     (* "either --input or --sample must be specified" *)
| ErrWriteData.                   (* "failed to write data: %w" *)

Inductive CmdPanic :=
| LoaderPanic (p : PanicMsg)
| NilRecord.

(** How a run ends: the number of rows it reports, an error, or a panic. *)
Inductive Outcome :=
| Done (rows : Z)
| Failed (e : CmdError)
| Crashed (p : CmdPanic).

Record Flags := mkFlags {
  flag_input : string;
  flag_password : string;
  flag_sample : bool;
  flag_format : string;
  flag_blob : list string
}.

Definition ensurePyarrowInstalled (W : World) : bool * list Event :=
  if pyarrow_imports W then (true, [EvCheckPyarrow])
  else if pip3_installs W then (true, [EvCheckPyarrow; EvPip3Install])
  else (pip_installs W, [EvCheckPyarrow; EvPip3Install; EvPipInstall]).

(** The choice of the source (lines 77-117): the record of the chosen loader
    or its error, wrapped as the branch wraps it, and the conversion that
    was run. *)
Definition wrapLoad {A B} (w : Error -> CmdError) (k : A -> B) (r : res A)
  : result CmdError B :=
  match r with
  | Ok a => Ok (k a)
  | Err e => Err (w e)
  | Panic p => Panic p
  end.

Definition loadSource (P : Platform) (W : World) (flags : Flags) (schema : Schema)
  : result CmdError (option ArrowRecord) * list Event :=
  let blobMap := parseBlobArgs (flag_blob flags) in
  let inputFile := flag_input flags in
  let format := flag_format flags in
  if flag_sample flags
  then (wrapLoad ErrSampleData Some (generateSampleData schema), [])
  else if (0 <? size blobMap)%nat && String.eqb format "blob"
  then (wrapLoad ErrLoadBlob Some (loadBlobRecord (blob_files W) blobMap schema), [])
  else if negb (String.eqb inputFile "") && String.eqb format "csv"
  then (wrapLoad ErrLoadFile Some (loadDataFromFile P (csv_files W inputFile) schema), [])
  else if negb (String.eqb inputFile "") && String.eqb format "json"
  then (wrapLoad ErrLoadFile Some (loadDataFromJSON P (json_files W inputFile) schema), [])
  else if negb (String.eqb inputFile "") && String.eqb format "orc"
  then
    let outputfile := (TrimSuffix inputFile ".orc" ++ ".parquet")%string in
    if negb (orc2parquet W inputFile outputfile)
    then (Err ErrConversion, [EvConvert inputFile outputfile])
    else
      (wrapLoad ErrLoadFile id
         (loadDataFromORCToParquet P (parquet_files W outputfile) schema),
       [EvConvert inputFile outputfile])
  else (Err ErrNoSource, []).

Definition RunE (P : Platform) (W : World) (filename : string) (flags : Flags)
  : Outcome * list Event :=
  let '(installed, ev1) := ensurePyarrowInstalled W in
  if negb installed then (Failed ErrPyarrow, ev1)
  else
    let '(password, ev2) :=
      if String.eqb (flag_password flags) ""
      then (typed_password W, [EvPromptPassword])
      else (Some (flag_password flags), []) in
    match password with
    | None => (Failed ErrReadPassword, ev1 ++ ev2)
    | Some password =>
        match lockbox_Open W filename password with
        | None => (Failed ErrOpenLockbox, ev1 ++ ev2 ++ [EvOpen filename password])
        | Some schema =>
            let '(loaded, ev3) := loadSource P W flags schema in
            let before := ev1 ++ ev2 ++ [EvOpen filename password] ++ ev3 in
            match loaded with
            | Err e => (Failed e, before ++ [EvClose])
            | Panic p => (Crashed (LoaderPanic p), before ++ [EvClose])
            | Ok None =>
                (* lb.Write(ctx, nil, ...), then record.Release() on nil *)
                (Crashed NilRecord, before ++ [EvWrite None password; EvClose])
            | Ok (Some record) =>
                if lockbox_Write W filename (Some record) password
                then (Done (NumRows record),
                      before ++ [EvWrite (Some record) password; EvClose])
                else (Failed ErrWriteData,
                      before ++ [EvWrite (Some record) password; EvClose])
            end
        end
    end.

(** * Vocabulary of the properties *)

(** The batch invariant of the data model: as many columns as fields, and
    column [i] has the type of field [i]. *)
Definition conforms (schema : Schema) (r : ArrowRecord) : Prop :=
  length (rec_columns r) = length (Fields schema) /\
  forall i field, Fields schema !! i = Some field ->
    exists col, rec_columns r !! i = Some col /\ DataType_ col = Type_ field.

(** A batch that [NewRecord] accepts for [schema]: one column per field, of
    the field's type and with at least [rec_rows] slots. *)
Definition validBatch (schema : Schema) (r : ArrowRecord) : Prop :=
  Forall2 (fun f a => DataType_ a = Type_ f /\ (rec_rows r <= Z.of_nat (Len a))%Z)
    (Fields schema) (rec_columns r) /\
  (0 <= rec_rows r)%Z.

(** The slots of column [i] of a batch. *)
Definition colData (i : nat) (r : ArrowRecord) : list (option Value) :=
  match rec_columns r !! i with
  | Some a => Data a
  | None => []
  end.

Definition sumRows (records : list ArrowRecord) : Z :=
  foldr (fun r acc => (rec_rows r + acc)%Z) 0%Z records.

(** The batches appended: column [i] is the columns [i] of the batches one
    after the other, and the row count is the sum of the row counts. *)
Definition appended (schema : Schema) (records : list ArrowRecord) : ArrowRecord :=
  mkRecord schema
    (imap (fun i f => mkArray (Type_ f) (concat (map (colData i) records)))
       (Fields schema))
    (sumRows records).

(** Slot [vs !! i] appended to builder [bs !! i], for every [i]. *)
Definition pushAll (bs : list Builder) (vs : list (option Value)) : list Builder :=
  zip_with (fun b v => push v b) bs vs.

(** Rows of slots appended one after the other. *)
Definition pushRows (bs : list Builder) (vss : list (list (option Value))) : list Builder :=
  fold_left pushAll vss bs.

(** The body handles element [x] by appending one slot [v], with [R x v], to
    the builder at its index, or returns an error; it does not panic. *)
Definition cell_body {A : Type} (body : nat -> A -> list Builder -> res (list Builder))
    (good : A -> Builder -> Prop) (R : A -> option Value -> Prop) : Prop :=
  forall i x bs b, bs !! i = Some b -> good x b ->
    match body i x bs with
    | Ok bs' => exists v, R x v /\ bs' = <[i := push v b]> bs
    | Err _ => True
    | Panic _ => False
    end.

(** Builder [b] is the one that [newBuilder] makes for [field], with any
    number of slots appended. *)
Definition builderFor (field : Field) (b : Builder) : Prop :=
  exists b0, newBuilder field = Ok b0 /\ b_type b = b_type b0.

(** The key of [field] is absent from the object, or present with [null]. *)
Definition missing (rec : gmap string JValue) (field : Field) : Prop :=
  rec !! Name field = None \/ rec !! Name field = Some JNull.

(** What a successful [jsonCell] appends for a missing key. *)
Definition jsonSlot (rec : gmap string JValue) (field : Field) (v : option Value) : Prop :=
  missing rec field -> Nullable field = true /\ v = None.

(** The slot of a field in the blob record: the bytes of the mapped file, as
    bytes or as a string, or null when the mapping has no entry for the
    field. *)
Definition blobValue (fs : gmap string (list Byte.byte)) (blobs : gmap string string)
    (f : Field) : res (option Value) :=
  match blobs !! Name f with
  | Some path =>
      match fs !! path with
      | None => Err (ErrReadBlob (Name f))
      | Some data =>
          Ok (Some (match Type_ f with
                    | BinaryType | LargeBinaryType => VBinary data
                    | _ => VString (string_of_list_byte data)
                    end))
      end
  | None => Ok None
  end.

(** The field types for which the blob loader makes a builder of the field's
    own type. *)
Definition blobType (t : DataType) : bool :=
  match t with BinaryType | LargeBinaryType | StringType => true | _ => false end.

(** The instant of a [Time] in nanoseconds since the epoch, and the number of
    nanoseconds in a unit. *)
Definition instantNanos (tm : Time) : Z := (unixSec tm * 1000000000 + nsec tm)%Z.

Definition unitNanos (u : TimeUnit) : Z :=
  match u with
  | Second => 1000000000
  | Millisecond => 1000000
  | Microsecond => 1000
  | Nanosecond => 1
  | UnitOther _ => 0
  end%Z.

Definition namedUnit (u : TimeUnit) : bool :=
  match u with UnitOther _ => false | _ => true end.

(** The normal form of a [Time]. *)
Definition wfTime (tm : Time) : Prop := (0 <= nsec tm < 1000000000)%Z.

(** What a successful [csvCell] appends for the cell [val] of [field]: null
    for an empty cell of a nullable field, else the value that the cell
    parses to. *)
Definition csvSlot (P : Platform) (field : Field) (val : string) (v : option Value) : Prop :=
  if String.eqb val "" && Nullable field then v = None
  else
    match Type_ field with
    | Int64Type => exists z, ParseInt val 64 = Some z /\ v = Some (VInt64 z)
    | Int32Type => exists z, ParseInt val 32 = Some z /\ v = Some (VInt32 z)
    | Float64Type => exists x, ParseFloat P val = Some x /\ v = Some (VFloat64 x)
    | StringType => v = Some (VString val)
    | TimestampType u _ =>
        exists tm epoch,
          time_Parse P val = Some tm /\ epochOf u tm = Ok epoch /\
          v = Some (VTimestamp epoch)
    | _ => False
    end.

(** The rows of slots of a CSV load: one slot per cell. *)
Definition csvSlots (P : Platform) (schema : Schema) (rows : list (list string))
    (vss : list (list (option Value))) : Prop :=
  Forall2 (fun row vs => Forall2 (fun fv v => csvSlot P fv.1 fv.2 v)
                           (zip (Fields schema) row) vs) rows vss.

(** The field types of the switch of [generateSampleData]. *)
Definition sampleType (t : DataType) : bool :=
  match t with
  | Int64Type | Int32Type | StringType | Float64Type => true
  | _ => false
  end.

(** What the loop of lines 699-714 keeps of a batch: the batch itself when
    its schema equals the target, else its coercion. *)
Definition coerceIfNeeded (P : Platform) (schema : Schema) (rec : ArrowRecord)
  : res ArrowRecord :=
  if Schema_Equal (rec_schema rec) schema then Ok rec else CoerceRecord P schema rec.

(** Events of a run. *)
Definition isInstall (ev : Event) : bool :=
  match ev with EvPip3Install | EvPipInstall => true | _ => false end.

Definition isLockbox (ev : Event) : bool :=
  match ev with EvOpen _ _ | EvWrite _ _ | EvClose => true | _ => false end.

(** The calls on the lockbox in a run. *)
Definition lockboxCalls (tr : list Event) : list Event := List.filter isLockbox tr.

(** The errors of the choice of the source are those of lines 81-116. *)
Definition isSourceError (e : CmdError) : bool :=
  match e with
  | ErrSampleData _ | ErrLoadBlob _ | ErrLoadFile _ | ErrConversion | ErrNoSource => true
  | _ => false
  end.

(** Two calls end the same way: with the same value, or both with an error,
    or both with a panic. *)
Definition sameOutcome {A} (r1 r2 : res A) : Prop :=
  match r1, r2 with
  | Ok a, Ok b => a = b
  | Err _, Err _ => True
  | Panic _, Panic _ => True
  | _, _ => False
  end.

(** The object [rec] holds, under the name of every field of the schema, the
    cell of [row] at the field's index as a JSON string. *)
Definition textRow (schema : Schema) (rec : gmap string JValue) (row : list string) : Prop :=
  length row = length (Fields schema) /\
  forall i field, Fields schema !! i = Some field ->
    exists val, row !! i = Some val /\ rec !! Name field = Some (JString val).

(** ** Concrete inputs for the examples *)

(** A platform for closed examples: conversions that do not fit give the
    least integer of the width (as amd64 does), and the other functions reject
    every input. No example below depends on them. *)
Definition examplePlatform : Platform :=
  {| ParseFloat := fun _ => None;
     parseLayout := fun _ => None;
     convUndefined := fun bits _ => (- 2 ^ (bits - 1))%Z;
     Sprint := fun _ => ""%string;
     CoerceRecord := fun _ _ => Err (ErrCoerce "not coercible") |}.

Definition idAgeSchema (ageNullable : bool) : Schema :=
  mkSchema [mkField "id" Int64Type false; mkField "age" Int32Type ageNullable].

Definition photoSchema : Schema :=
  mkSchema [mkField "photo" BinaryType true; mkField "caption" StringType true].

Definition tsSchema (u : TimeUnit) : Schema :=
  mkSchema [mkField "ts" (TimestampType u "UTC") false].

(** The file [{"id": 5}] and the batch it loads to. *)
Definition idOnlyText : JSONText :=
  mkJSONText [JObject {[ "id"%string := JNumber 5%float ]}] false.

Definition idOnlyBatch : ArrowRecord :=
  mkRecord (idAgeSchema true)
    [mkArray Int64Type [Some (VInt64 5)]; mkArray Int32Type [None]] 1.

(** A batch of the schema [{id: Int64 not null, age: Int32 nullable}] from
    its two columns, and four such batches. *)
Definition batchOf (ids : list Z) (ages : list (option Z)) : ArrowRecord :=
  mkRecord (idAgeSchema true)
    [mkArray Int64Type (map (fun z => Some (VInt64 z)) ids);
     mkArray Int32Type (map (fun o => VInt32 <$> o) ages)]
    (Z.of_nat (length ids)).

Definition batchA : ArrowRecord := batchOf [1; 2]%Z [Some 20; None]%Z.
Definition batchB : ArrowRecord := batchOf [3]%Z [None].
Definition batchC : ArrowRecord := batchOf [] [].
Definition batchD : ArrowRecord := batchOf [4; 5]%Z [Some 50; Some 51]%Z.

(** Two batches that carry the target schema, the second with a String
    column in place of the Int32 column. *)
Definition batchMistyped : ArrowRecord :=
  mkRecord (idAgeSchema true)
    [mkArray Int64Type [Some (VInt64 9)]; mkArray StringType [Some (VString "nine")]] 1.

(** * Properties *)

(** ** The result monad and the loops *)

Lemma bind_Ok {E A B} (r : result E A) (k : A -> result E B) (b : B) :
  bind r k = Ok b -> exists a, r = Ok a /\ k a = Ok b.
Proof. destruct r; simpl; intros H; try discriminate. eauto. Qed.

Lemma mapR_length {A B} (f : A -> res B) (l : list A) (ys : list B) :
  mapR f l = Ok ys -> length ys = length l.
Proof.
  revert ys. induction l as [|x l IH]; simpl; intros ys H.
  - by inversion H.
  - apply bind_Ok in H as (y & _ & H).
    apply bind_Ok in H as (ys' & Hys & H).
    inversion H; subst. simpl. f_equal. by apply IH.
Qed.

Lemma mapR_lookup {A B} (f : A -> res B) (l : list A) (ys : list B) (i : nat) (x : A) :
  mapR f l = Ok ys -> l !! i = Some x -> exists y, ys !! i = Some y /\ f x = Ok y.
Proof.
  revert ys i. induction l as [|x0 l IH]; simpl; intros ys i H Hx; [done|].
  apply bind_Ok in H as (y & Hy & H).
  apply bind_Ok in H as (ys' & Hys & H).
  inversion H; subst.
  destruct i as [|i]; simpl in *.
  - inversion Hx; subst. eauto.
  - eauto.
Qed.

(** ** Records that pass [NewRecord] *)

Lemma NewRecord_Ok {E} schema cols nrows (r : ArrowRecord) :
  NewRecord (E := E) schema cols nrows = Ok r ->
  rec_schema r = schema /\ rec_columns r = cols /\
  validate schema cols (rec_rows r) = None /\
  ((0 <= nrows)%Z -> rec_rows r = nrows).
Proof.
  unfold NewRecord. intros H.
  destruct (validate schema cols _) eqn:Hv; [discriminate|].
  inversion H; subst; simpl. repeat split; try done.
  intros Hn. destruct (Z.ltb_spec nrows 0); [lia|done].
Qed.

Lemma validate_columns_types fs arrs rows :
  validate_columns fs arrs rows = None ->
  length arrs = length fs ->
  forall i f, fs !! i = Some f ->
    exists col, arrs !! i = Some col /\ DataType_ col = Type_ f.
Proof.
  revert fs. induction arrs as [|a arrs IH]; intros [|f0 fs]; simpl; try done.
  intros Hv Hlen i f Hi.
  destruct (Z.of_nat (Len a) <? rows)%Z; [done|].
  unfold TypeEqual in Hv. case_bool_decide as Hty; simpl in Hv; [|done].
  destruct i as [|i]; simpl in *.
  - inversion Hi; subst. eauto.
  - apply IH with (fs := fs); auto.
Qed.

Lemma validate_columns_rows fs arrs rows :
  validate_columns fs arrs rows = None ->
  length arrs = length fs ->
  Forall (fun a => (rows <= Z.of_nat (Len a))%Z) arrs.
Proof.
  revert fs. induction arrs as [|a arrs IH]; intros [|f0 fs]; simpl; try done.
  intros Hv Hlen.
  destruct (Z.ltb_spec (Z.of_nat (Len a)) rows); [done|].
  destruct (negb _); [done|].
  constructor; [lia|]. apply IH with (fs := fs); auto.
Qed.

(** A record that [validate] accepts conforms to its schema, unless it is
    the record of no column and no row. *)
Lemma validate_conforms schema cols rows :
  validate schema cols rows = None ->
  cols <> [] \/ rows <> 0%Z \/ Fields schema = [] ->
  conforms schema (mkRecord schema cols rows).
Proof.
  unfold validate, conforms. simpl. intros Hv Hne.
  destruct ((rows =? 0)%Z && (length cols =? 0)%nat) eqn:Hq.
  - apply andb_true_iff in Hq as [Hr Hc].
    apply Z.eqb_eq in Hr. apply Nat.eqb_eq in Hc.
    destruct cols; [|done].
    destruct Hne as [?|[?|Hf]]; [done|done|].
    rewrite Hf. split; [done|]. intros i f Hi. by destruct i.
  - destruct (Nat.eqb_spec (length cols) (length (Fields schema))) as [Hl|]; [|done].
    simpl in Hv. split; [done|].
    by apply validate_columns_types with (rows := rows).
Qed.

Lemma NewRecord_conforms {E} schema cols nrows (r : ArrowRecord) :
  NewRecord (E := E) schema cols nrows = Ok r ->
  cols <> [] \/ (0 < nrows)%Z \/ Fields schema = [] ->
  conforms schema r.
Proof.
  intros H Hne.
  destruct (NewRecord_Ok _ _ _ _ H) as (Hs & Hc & Hv & Hr).
  destruct r as [s c n]; simpl in *; subst.
  apply validate_conforms; [done|].
  destruct Hne as [?|[?|?]]; auto.
  right; left. rewrite Hr; lia.
Qed.

(** ** Every adapter returns a batch of the schema *)

Lemma buildRecord_conforms schema builders r :
  buildRecord schema builders = Ok r -> conforms schema r.
Proof.
  unfold buildRecord. destruct (map NewArray builders) as [|a0 arrays] eqn:Hm; [done|].
  intros H. apply NewRecord_conforms in H; auto.
Qed.

Lemma concatRecords_conforms schema records r :
  concatRecords schema records = Ok (Some r) -> conforms schema r.
Proof.
  unfold concatRecords. destruct records as [|r0 records]; [done|].
  intros H. apply bind_Ok in H as (cols & Hcols & H).
  apply bind_Ok in H as (rec & Hrec & H). inversion H; subst.
  apply mapR_length in Hcols. rewrite length_seq in Hcols.
  apply NewRecord_conforms in Hrec; [done|].
  destruct cols; [|by left].
  right; right. simpl in Hcols. by destruct (Fields schema).
Qed.

(** C1. For every schema and every adapter (sample data, CSV rows, JSON
    objects, blobs, Parquet batches), a batch that the adapter returns has as
    many columns as the schema has fields, and its column [i] has the logical
    type of the schema's field [i]. *)
Theorem adapters_conform (P : Platform) (schema : Schema) :
  (forall r, generateSampleData schema = Ok r -> conforms schema r) /\
  (forall file r, loadDataFromFile P file schema = Ok r -> conforms schema r) /\
  (forall file r, loadDataFromJSON P file schema = Ok r -> conforms schema r) /\
  (forall fs blobs r, loadBlobRecord fs blobs schema = Ok r -> conforms schema r) /\
  (forall file r, loadDataFromORCToParquet P file schema = Ok (Some r) ->
     conforms schema r).
Proof.
  split; [|split; [|split; [|split]]].
  - intros r H. unfold generateSampleData in H.
    apply NewRecord_conforms in H; [done|]. right; left. done.
  - intros file r H. unfold loadDataFromFile in H.
    apply bind_Ok in H as (bs & _ & H).
    destruct file as [f|]; [|done].
    destruct (Read (NewReader f)) as [[| |row] rdr']; try done.
    apply bind_Ok in H as (bs' & _ & H).
    by apply buildRecord_conforms in H.
  - intros file r H. unfold loadDataFromJSON in H.
    apply bind_Ok in H as (bs & _ & H).
    destruct file as [[text canSeek]|]; [|done].
    apply bind_Ok in H as (records & _ & H).
    apply bind_Ok in H as (bs' & _ & H).
    by apply buildRecord_conforms in H.
  - intros fs blobs r H. unfold loadBlobRecord in H.
    apply bind_Ok in H as (bs' & _ & H).
    apply NewRecord_conforms in H; [done|]. right; left. done.
  - intros file r H. unfold loadDataFromORCToParquet in H.
    destruct file as [| | | | |batches]; try done.
    apply bind_Ok in H as (allBatches & _ & H).
    destruct (length allBatches =? 0)%nat; [done|].
    destruct (concatRecords schema allBatches) as [res0| |] eqn:Hc; try done.
    + inversion H; subst. by apply concatRecords_conforms in Hc.
Qed.

Lemma adapters_conform_witness :
  loadDataFromJSON examplePlatform (Some (idOnlyText, true)) (idAgeSchema true)
    = Ok idOnlyBatch /\
  conforms (idAgeSchema true) idOnlyBatch.
Proof.
  assert (H : loadDataFromJSON examplePlatform (Some (idOnlyText, true)) (idAgeSchema true)
              = Ok idOnlyBatch) by (vm_compute; reflexivity).
  split; [exact H|].
  exact (proj1 (proj2 (proj2 (adapters_conform examplePlatform (idAgeSchema true))))
           (Some (idOnlyText, true)) idOnlyBatch H).
Defined.

(** ** Loops that append one slot per column *)

Lemma pushAll_lookup bs vs i b v :
  bs !! i = Some b -> vs !! i = Some v -> pushAll bs vs !! i = Some (push v b).
Proof. intros Hb Hv. unfold pushAll. by rewrite lookup_zip_with, Hb, Hv. Qed.

Lemma pushAll_length bs vs :
  length vs = length bs -> length (pushAll bs vs) = length bs.
Proof. intros H. unfold pushAll. rewrite length_zip_with. lia. Qed.

Section CellLoop.

Context {A : Type} (body : nat -> A -> list Builder -> res (list Builder)).
Context (good : A -> Builder -> Prop) (R : A -> option Value -> Prop).

Lemma rangeFrom_cells (Hbody : cell_body body good R) xs :
  forall pre cur, Forall2 good xs cur ->
    match rangeFrom body (length pre) xs (pre ++ cur) with
    | Ok bs' => exists vs, Forall2 R xs vs /\ bs' = pre ++ pushAll cur vs
    | Err _ => True
    | Panic _ => False
    end.
Proof.
  induction xs as [|x xs IH]; intros pre cur Hgood.
  - inversion Hgood; subst. simpl. exists []. split; [constructor|done].
  - inversion Hgood as [|? b ? cur' Hx Hrest]; subst. simpl.
    assert (Hb : (pre ++ b :: cur') !! length pre = Some b).
    { by rewrite lookup_app_r, Nat.sub_diag by lia. }
    specialize (Hbody (length pre) x (pre ++ b :: cur') b Hb Hx).
    destruct (body (length pre) x (pre ++ b :: cur')) as [bs'| |]; simpl; try done.
    destruct Hbody as (v & Hv & ->).
    replace (<[length pre := push v b]> (pre ++ b :: cur'))
      with ((pre ++ [push v b]) ++ cur').
    2:{ rewrite insert_app_r_alt, Nat.sub_diag by lia. simpl. by rewrite <- app_assoc. }
    specialize (IH (pre ++ [push v b]) cur' Hrest).
    rewrite length_app in IH. simpl in IH.
    replace (length pre + 1) with (S (length pre)) in IH by lia.
    destruct (rangeFrom body (S (length pre)) xs _) as [bs''| |]; try done.
    destruct IH as (vs & Hvs & ->).
    exists (v :: vs). split; [by constructor|].
    simpl. by rewrite <- app_assoc.
Qed.

Lemma forRange_cells (Hbody : cell_body body good R) xs bs :
  Forall2 good xs bs ->
  match forRange body xs bs with
  | Ok bs' => exists vs, Forall2 R xs vs /\ bs' = pushAll bs vs
  | Err _ => True
  | Panic _ => False
  end.
Proof. intros H. apply (rangeFrom_cells Hbody xs [] bs H). Qed.

End CellLoop.

(** ** The builders of the CSV and JSON loaders *)

Lemma builderFor_type field b : builderFor field b -> b_type b = Type_ field.
Proof.
  intros (b0 & H & ->). unfold newBuilder in H.
  destruct (Type_ field); by inversion H.
Qed.

Lemma builderFor_push field b v : builderFor field b -> builderFor field (push v b).
Proof. intros (b0 & H & Ht). by exists b0. Qed.

Lemma makeBuilders_good schema builders :
  makeBuilders schema = Ok builders ->
  Forall2 builderFor (Fields schema) builders /\
  Forall (fun b => b_data b = []) builders.
Proof.
  unfold makeBuilders. generalize (Fields schema). intros fs. revert builders.
  induction fs as [|f fs IH]; simpl; intros builders H.
  - inversion H. split; constructor.
  - apply bind_Ok in H as (b & Hb & H).
    apply bind_Ok in H as (bs & Hbs & H). inversion H; subst.
    destruct (IH _ Hbs) as [IH1 IH2].
    split; constructor; auto.
    + by exists b.
    + unfold newBuilder in Hb. destruct (Type_ f); by inversion Hb.
Qed.

Lemma pushAll_good (fields : list Field) bs vs :
  Forall2 builderFor fields bs -> length vs = length fields ->
  Forall2 builderFor fields (pushAll bs vs).
Proof.
  intros H. revert vs. induction H as [|f b fs bs Hf Hfs IH]; intros [|v vs] Hlen;
    simpl in *; try done.
  constructor; [by apply builderFor_push|]. apply IH. lia.
Qed.

(** ** The JSON loader, cell by cell *)

Lemma appendTo_Ok isT i v bs b :
  bs !! i = Some b -> isT b = true -> appendTo isT i v bs = Ok (<[i := push v b]> bs).
Proof. intros Hb Ht. unfold appendTo. by rewrite Hb, Ht. Qed.

Lemma jsonCell_cell P rowNum rec :
  cell_body (jsonCell P rowNum rec) builderFor (jsonSlot rec).
Proof.
  intros i field bs b Hb Hgood.
  pose proof (builderFor_type _ _ Hgood) as Hty.
  destruct Hgood as (b0 & Hnew & _).
  unfold jsonCell, appendNullAt, jsonSlot, missing.
  destruct (rec !! Name field) as [val|] eqn:Hval.
  2:{ destruct (Nullable field) eqn:Hn; [|done].
      rewrite (appendTo_Ok _ _ _ _ b) by done. eauto. }
  assert (Hnot : val <> JNull ->
    forall v : option Value,
      (Some val = None \/ Some val = Some JNull) -> Nullable field = true /\ v = None).
  { intros Hne v [?|[=]]; done. }
  unfold newBuilder in Hnew.
  destruct val as [|bv|x|s|l|m].
  { destruct (Nullable field) eqn:Hn; [|done].
    rewrite (appendTo_Ok _ _ _ _ b) by done. eauto. }
  all: destruct (Type_ field) eqn:Hf; try done.
  all: repeat match goal with
    | |- context [if (?c && ?d)%bool then _ else _] => destruct (c && d)%bool
    | |- context [match ParseInt ?s ?n with _ => _ end] => destruct (ParseInt s n)
    | |- context [match ParseFloat ?P ?s with _ => _ end] => destruct (ParseFloat P s)
    | |- context [match time_Parse ?P ?s with _ => _ end] => destruct (time_Parse P s)
    | |- context [epochOf ?u ?t] => unfold epochOf; destruct u; simpl
    end; try done.
  all: rewrite (appendTo_Ok _ _ _ _ b);
    [ eexists; split; [apply Hnot; done | reflexivity]
    | done
    | unfold isInt64Builder, isInt32Builder, isFloat64Builder, isStringBuilder,
        isTimestampBuilder; rewrite Hty; by try apply bool_decide_eq_true_2 ].
Qed.

Lemma pushRows_nil vss : pushRows [] vss = [].
Proof. induction vss as [|vs vss IH]; [done|]. simpl. exact IH. Qed.

Lemma pushRows_lookup vss : forall bs i b,
  bs !! i = Some b ->
  Forall (fun vs => length vs = length bs) vss ->
  exists col,
    Forall2 (fun vs v => vs !! i = Some v) vss col /\
    pushRows bs vss !! i = Some (mkBuilder (b_type b) (b_data b ++ col)).
Proof.
  induction vss as [|vs vss IH]; intros bs i b Hb Hlen.
  - exists []. split; [constructor|]. simpl. rewrite app_nil_r. by destruct b.
  - inversion Hlen as [|? ? Hvs Hrest]; subst.
    assert (is_Some (vs !! i)) as [v Hv].
    { apply lookup_lt_is_Some. rewrite Hvs. by eapply lookup_lt_Some. }
    simpl. pose proof (pushAll_lookup _ _ _ _ _ Hb Hv) as Hp.
    destruct (IH (pushAll bs vs) i (push v b) Hp) as (col & Hcol & Hl).
    { rewrite pushAll_length by done. done. }
    exists (v :: col). split; [by constructor|].
    change (pushRows bs (vs :: vss)) with (pushRows (pushAll bs vs) vss).
    rewrite Hl. simpl. by rewrite <- app_assoc.
Qed.

Lemma Forall2_length_r {A B} (Q : A -> B -> Prop) (l : list A) (k : list B) :
  Forall2 Q l k -> length k = length l.
Proof. intros H. symmetry. by eapply Forall2_length. Qed.

Lemma jsonRecords_spec P schema records : forall rowNum bs,
  Forall2 builderFor (Fields schema) bs ->
  match rangeFrom (jsonRecord P schema) rowNum records bs with
  | Ok bs' =>
      exists vss,
        Forall2 (fun rec vs => Forall2 (jsonSlot rec) (Fields schema) vs) records vss /\
        bs' = pushRows bs vss
  | Err _ => True
  | Panic _ => False
  end.
Proof.
  induction records as [|rec records IH]; intros rowNum bs Hgood; simpl.
  - exists []. split; [constructor|done].
  - pose proof (forRange_cells _ _ _ (jsonCell_cell P rowNum rec) _ _ Hgood) as Hrow.
    unfold jsonRecord at 1.
    destruct (forRange (jsonCell P rowNum rec) (Fields schema) bs) as [bs1| |];
      simpl; try done.
    destruct Hrow as (vs & Hvs & ->).
    specialize (IH (S rowNum) (pushAll bs vs)).
    destruct (rangeFrom (jsonRecord P schema) (S rowNum) records (pushAll bs vs))
      as [bs2| |]; try done.
    + destruct IH as (vss & Hvss & ->).
      { apply pushAll_good; [done|]. by eapply Forall2_length_r. }
      exists (vs :: vss). split; [by constructor|done].
    + apply IH. apply pushAll_good; [done|]. by eapply Forall2_length_r.
Qed.

(** What a successful JSON load returns: one row per decoded object, and a
    null in the column of every nullable field at the rows whose object
    lacks the field's key or holds [null] for it. *)
Lemma loadDataFromJSON_Ok P text canSeek schema r :
  loadDataFromJSON P (Some (text, canSeek)) schema = Ok r ->
  exists records,
    readRecords (Open text canSeek) = Ok records /\
    rec_rows r = Z.of_nat (length records) /\
    forall i field, Fields schema !! i = Some field ->
      exists col,
        rec_columns r !! i = Some col /\
        Len col = length records /\
        forall k rec, records !! k = Some rec -> missing rec field ->
          Nullable field = true /\ Data col !! k = Some None.
Proof.
  unfold loadDataFromJSON. intros H.
  apply bind_Ok in H as (bs & Hbs & H).
  apply bind_Ok in H as (records & Hrecords & H).
  apply bind_Ok in H as (bs' & Hbs' & H).
  exists records. split; [done|].
  destruct (makeBuilders_good _ _ Hbs) as [Hgood Hempty].
  pose proof (jsonRecords_spec P schema records 0 bs Hgood) as Hspec.
  unfold jsonRecords, forRange in Hbs'. rewrite Hbs' in Hspec.
  destruct Hspec as (vss & Hvss & ->).
  assert (Hlen : Forall (fun vs => length vs = length bs) vss).
  { apply Forall_forall. intros vs Hin.
    apply list_elem_of_lookup in Hin as [k Hk].
    destruct (Forall2_lookup_r _ _ _ _ _ Hvss Hk) as (rec & _ & Hrow).
    rewrite (Forall2_length_r _ _ _ Hrow). by eapply Forall2_length. }
  assert (Hcols : forall i field, Fields schema !! i = Some field ->
    exists col, map NewArray (pushRows bs vss) !! i = Some col /\
      Len col = length records /\
      forall k rec, records !! k = Some rec -> missing rec field ->
        Nullable field = true /\ Data col !! k = Some None).
  { intros i field Hi.
    destruct (Forall2_lookup_l _ _ _ _ _ Hgood Hi) as (b & Hb & _).
    destruct (pushRows_lookup vss bs i b Hb Hlen) as (col & Hcol & Hl).
    rewrite (proj1 (Forall_lookup _ _) Hempty i b Hb) in Hl. simpl in Hl.
    exists (mkArray (b_type b) col).
    rewrite list_lookup_fmap, Hl. simpl. split; [done|].
    split.
    { unfold Len. simpl. rewrite (Forall2_length_r _ _ _ Hcol).
      by eapply Forall2_length_r. }
    intros k rec Hk Hmiss.
    destruct (Forall2_lookup_l _ _ _ _ _ Hvss Hk) as (vs & Hvs & Hrow).
    destruct (Forall2_lookup_l _ _ _ _ _ Hrow Hi) as (v & Hv & Hslot).
    destruct (Hslot Hmiss) as [Hn ->]. split; [done|].
    destruct (Forall2_lookup_l _ _ _ _ _ Hcol Hvs) as (v' & Hv' & Hvi).
    simpl. rewrite Hv'. congruence. }
  unfold buildRecord in H.
  destruct (map NewArray (pushRows bs vss)) as [|a0 arrays] eqn:Harr; [done|].
  destruct (NewRecord_Ok _ _ _ _ H) as (_ & Hc & _ & Hrows).
  rewrite Hc.
  assert (Ha0 : Len a0 = length records).
  { destruct (Fields schema) as [|f0 fs] eqn:Hf.
    - inversion Hgood; subst. by rewrite pushRows_nil in Harr.
    - destruct (Hcols 0 f0 eq_refl) as (col & Hcol & Hl & _).
      simpl in Hcol. by inversion Hcol; subst. }
  split; [rewrite Hrows; lia|done].
Qed.

(** ** Absent and null keys in the JSON loader *)

(** C7. In the JSON loader every field's name is looked up in every object.
    A key that is absent or holds [null] takes the nullable check: for a
    nullable field a null is appended to the field's builder (otherwise the
    load stops with the missing-field error). In a batch that the loader
    returns, the row count is the number of objects, every column has that
    many slots, and the slot of such a key is null. The object [{"id": 5}]
    against [{id: Int64 not null, age: Int32 nullable}] gives one row with
    [id = 5] and [age = null]. *)
Theorem json_missing_key_takes_nullable_check (P : Platform) :
  (forall rowNum rec i field builders b,
     builders !! i = Some b -> missing rec field ->
     jsonCell P rowNum rec i field builders =
       if Nullable field then Ok (<[i := AppendNull b]> builders)
       else Err (ErrMissingNonNullable (rowNum + 1) (Name field))) /\
  (forall text canSeek schema r,
     loadDataFromJSON P (Some (text, canSeek)) schema = Ok r ->
     exists records,
       readRecords (Open text canSeek) = Ok records /\
       rec_rows r = Z.of_nat (length records) /\
       forall i field, Fields schema !! i = Some field ->
         exists col,
           rec_columns r !! i = Some col /\
           Len col = length records /\
           forall k rec, records !! k = Some rec -> missing rec field ->
             Nullable field = true /\ Data col !! k = Some None) /\
  loadDataFromJSON P (Some (idOnlyText, true)) (idAgeSchema true) = Ok idOnlyBatch.
Proof.
  split; [|split].
  - intros rowNum rec i field builders b Hb Hmiss.
    unfold jsonCell, appendNullAt, appendTo.
    destruct Hmiss as [-> | ->]; by rewrite Hb.
  - intros text canSeek schema r H. exact (loadDataFromJSON_Ok P _ _ _ _ H).
  - vm_compute. reflexivity.
Qed.

Lemma json_missing_key_witness :
  loadDataFromJSON examplePlatform (Some (idOnlyText, true)) (idAgeSchema true)
    = Ok idOnlyBatch /\
  exists records,
    readRecords (Open idOnlyText true) = Ok records /\
    rec_rows idOnlyBatch = Z.of_nat (length records) /\
    forall i field, Fields (idAgeSchema true) !! i = Some field ->
      exists col,
        rec_columns idOnlyBatch !! i = Some col /\
        Len col = length records /\
        forall k rec, records !! k = Some rec -> missing rec field ->
          Nullable field = true /\ Data col !! k = Some None.
Proof.
  assert (H : loadDataFromJSON examplePlatform (Some (idOnlyText, true)) (idAgeSchema true)
              = Ok idOnlyBatch) by (vm_compute; reflexivity).
  split; [exact H|].
  exact (proj1 (proj2 (json_missing_key_takes_nullable_check examplePlatform))
           idOnlyText true (idAgeSchema true) idOnlyBatch H).
Defined.

(** ** Reading the JSON file: array first, NDJSON second *)

(** The NDJSON loop written with [Decode]: one round of lines 466-473. *)
Lemma decodeRows_Decode values malformed_tail records :
  decodeRows values malformed_tail records =
    match Decode asMap (mkJSONText values malformed_tail) with
    | (inr row, rest) =>
        decodeRows (js_values rest) (js_malformed_tail rest) (records ++ [row])
    | (inl DecEOF, _) => Ok records
    | (inl err, _) => Err (ErrJSONDecode err)
    end.
Proof.
  destruct values as [|v rest]; simpl.
  - by destruct malformed_tail.
  - by destruct (asMap v).
Qed.

(** The loop returns the objects of the file, in order, when every top-level
    value is an object (or [null]) and no malformed text follows. *)
Lemma decodeRows_mapM values malformed_tail : forall records,
  decodeRows values malformed_tail records =
    match mapM asMap values with
    | None => Err (ErrJSONDecode DecUnmarshalType)
    | Some rows =>
        if malformed_tail then Err (ErrJSONDecode DecSyntax)
        else Ok (records ++ rows)
    end.
Proof.
  induction values as [|v rest IH]; intros records; simpl.
  - by rewrite app_nil_r.
  - destruct (asMap v) as [row|]; simpl; [|done].
    rewrite IH. destruct (mapM asMap rest) as [rows|]; simpl; [|done].
    by rewrite <- app_assoc.
Qed.

(** C8. The JSON loader reads its input in two stages. It first decodes the
    value at the current offset as one array of objects; when that succeeds
    the array is the input, and nothing else is tried. Only when that decode
    fails does it seek back to the start of the file (failing if the seek
    fails) and decode the whole content again as a sequence of objects, one
    [Decode] per object. *)
Theorem readRecords_two_stage (f : File) :
  readRecords f =
    match fst (Decode asMaps (unread f)) with
    | inr records => Ok records
    | inl err =>
        if seekable f
        then decodeRows (js_values (contents f)) (js_malformed_tail (contents f)) []
        else Err (ErrSeekFailed err)
    end /\
  decodeRows (js_values (contents f)) (js_malformed_tail (contents f)) [] =
    match mapM asMap (js_values (contents f)) with
    | None => Err (ErrJSONDecode DecUnmarshalType)
    | Some rows =>
        if js_malformed_tail (contents f) then Err (ErrJSONDecode DecSyntax)
        else Ok rows
    end.
Proof.
  split.
  - unfold readRecords, SeekStart.
    destruct (Decode asMaps (unread f)) as [[err|records] rest]; simpl; [|done].
    by destruct (seekable f).
  - by rewrite decodeRows_mapM.
Qed.

(** ** No batch from the Parquet file *)

Lemma collectBatches_length P schema batches : forall allBatches all,
  collectBatches P schema batches allBatches = Ok all ->
  length all = length allBatches + length batches.
Proof.
  induction batches as [|rec rest IH]; intros allBatches all H; simpl in H.
  - inversion H; subst. simpl. lia.
  - destruct (negb (Schema_Equal (rec_schema rec) schema)).
    + apply bind_Ok in H as (coerced & _ & H). apply IH in H.
      rewrite length_app in H. simpl in *. lia.
    + apply IH in H. rewrite length_app in H. simpl in *. lia.
Qed.

(** C9. When the record reader yields no batch, the Parquet loader fails
    with the error "no data found in Parquet file". It returns a result only
    for a source that yields at least one batch, and then the batches it
    concatenates are as many as the source yields. *)
Theorem no_batches_is_an_error (P : Platform) (schema : Schema) :
  loadDataFromORCToParquet P (PqBatches []) schema = Err ErrNoData /\
  forall file result,
    loadDataFromORCToParquet P file schema = Ok result ->
    exists batches allBatches,
      file = PqBatches batches /\ batches <> [] /\
      collectBatches P schema batches [] = Ok allBatches /\
      length allBatches = length batches.
Proof.
  split; [reflexivity|].
  intros file result H. unfold loadDataFromORCToParquet in H.
  destruct file as [| | | | |batches]; try done.
  apply bind_Ok in H as (allBatches & Hall & H).
  exists batches, allBatches.
  pose proof (collectBatches_length _ _ _ _ _ Hall) as Hlen. simpl in Hlen.
  split; [done|]. split; [|done].
  intros ->. simpl in Hall. inversion Hall; subst. done.
Qed.

Lemma no_batches_witness :
  loadDataFromORCToParquet examplePlatform (PqBatches [batchA; batchB]) (idAgeSchema true)
    = Ok (Some (batchOf [1; 2; 3]%Z [Some 20; None; None]%Z)) /\
  exists batches allBatches,
    PqBatches [batchA; batchB] = PqBatches batches /\ batches <> [] /\
    collectBatches examplePlatform (idAgeSchema true) batches [] = Ok allBatches /\
    length allBatches = length batches.
Proof.
  assert (H : loadDataFromORCToParquet examplePlatform (PqBatches [batchA; batchB])
                (idAgeSchema true)
              = Ok (Some (batchOf [1; 2; 3]%Z [Some 20; None; None]%Z)))
    by (vm_compute; reflexivity).
  split; [exact H|].
  exact (proj2 (no_batches_is_an_error examplePlatform (idAgeSchema true)) _ _ H).
Defined.

(** ** JSON numbers into integer columns *)

Lemma wrap_fits bits z : (0 < bits)%Z -> fits bits (wrap bits z) = true.
Proof.
  intros Hb. unfold fits, wrap.
  assert (H2 : (2 ^ bits = 2 * 2 ^ (bits - 1))%Z).
  { rewrite <- Z.pow_succ_r by lia. f_equal. lia. }
  assert (Hp : (0 < 2 ^ (bits - 1))%Z) by (apply Z.pow_pos_nonneg; lia).
  pose proof (Z.mod_pos_bound (z + 2 ^ (bits - 1)) (2 ^ bits)) as Hm.
  apply andb_true_iff. split; [apply Z.leb_le | apply Z.ltb_lt]; lia.
Qed.

Lemma wrap_id bits z : fits bits z = true -> wrap bits z = z.
Proof.
  unfold fits, wrap. intros H.
  apply andb_true_iff in H as [H1 H2]. apply Z.leb_le in H1. apply Z.ltb_lt in H2.
  destruct (Z.leb_spec bits 0) as [Hb|Hb].
  - assert (Hpow : (2 ^ (bits - 1) = 0)%Z) by (apply Z.pow_neg_r; lia). lia.
  - assert (Heq : (2 ^ bits = 2 * 2 ^ (bits - 1))%Z).
    { rewrite <- Z.pow_succ_r by lia. f_equal. lia. }
    rewrite Z.mod_small; lia.
Qed.

Lemma floatToInt_fits bits undef f :
  (0 < bits)%Z -> fits bits (floatToInt bits undef f) = true.
Proof.
  intros Hb. unfold floatToInt.
  destruct (truncate f) as [z|]; [|by apply wrap_fits].
  destruct (fits bits z) eqn:Hz; [done|by apply wrap_fits].
Qed.

(** C10. In the JSON loader, a JSON number (a [float64]) for an Int64 or
    Int32 field is never rejected: it is converted to the integer type and
    appended, without a range or integrality check. The conversion discards
    the fraction (truncation towards zero) when the truncated value fits the
    width, so [1.5] gives [1]; a value that does not fit is converted all the
    same, to an integer of the width that the implementation chooses. *)
Theorem json_number_into_int_column (P : Platform) :
  (forall rowNum rec i field builders b v,
     rec !! Name field = Some (JNumber v) -> builders !! i = Some b ->
     (Type_ field = Int64Type -> isInt64Builder b = true ->
      jsonCell P rowNum rec i field builders =
        Ok (<[i := push (Some (VInt64 (floatToInt 64 (convUndefined P) v))) b]> builders)) /\
     (Type_ field = Int32Type -> isInt32Builder b = true ->
      jsonCell P rowNum rec i field builders =
        Ok (<[i := push (Some (VInt32 (floatToInt 32 (convUndefined P) v))) b]> builders))) /\
  (forall bits v z,
     truncate v = Some z -> fits bits z = true ->
     floatToInt bits (convUndefined P) v = z) /\
  (forall v,
     fits 64 (floatToInt 64 (convUndefined P) v) = true /\
     fits 32 (floatToInt 32 (convUndefined P) v) = true) /\
  truncate 1.5%float = Some 1%Z /\
  truncate (-1.5)%float = Some (-1)%Z /\
  truncate 0x1p+63%float = Some (2 ^ 63)%Z /\
  forall nullable,
    loadDataFromJSON P
      (Some (mkJSONText [JObject {[ "id"%string := JNumber 1.5%float;
                                    "age"%string := JNumber (-20.75)%float ]}] false, true))
      (idAgeSchema nullable)
    = Ok (mkRecord (idAgeSchema nullable)
            [mkArray Int64Type [Some (VInt64 1)]; mkArray Int32Type [Some (VInt32 (-20))]] 1).
Proof.
  split; [|split; [|split; [|split; [|split; [|split]]]]].
  - intros rowNum rec i field builders b v Hv Hb.
    unfold jsonCell. rewrite Hv.
    split; intros Hty Hbt; rewrite Hty; by apply appendTo_Ok.
  - intros bits v z Hz Hfit. unfold floatToInt. by rewrite Hz, Hfit.
  - intros v. split; by apply floatToInt_fits.
  - vm_compute. reflexivity.
  - vm_compute. reflexivity.
  - vm_compute. reflexivity.
  - intros nullable. destruct nullable; vm_compute; reflexivity.
Qed.

Lemma json_number_into_int_column_witness :
  jsonCell examplePlatform 0 {[ "id"%string := JNumber 0x1p+63%float ]} 0
    (mkField "id" Int64Type false) [NewInt64Builder]
  = Ok [mkBuilder Int64Type [Some (VInt64 (- 2 ^ 63))]] /\
  floatToInt 32 (convUndefined examplePlatform) 2.5%float = 2%Z.
Proof.
  split.
  - exact (proj1 (proj1 (json_number_into_int_column examplePlatform) 0
             {[ "id"%string := JNumber 0x1p+63%float ]} 0
             (mkField "id" Int64Type false) [NewInt64Builder] NewInt64Builder
             0x1p+63%float eq_refl eq_refl) eq_refl eq_refl).
  - exact (proj1 (proj2 (json_number_into_int_column examplePlatform))
             32%Z 2.5%float 2%Z eq_refl eq_refl).
Defined.

(** ** Timestamps *)

Lemma instant_seconds s r :
  (0 <= r < 1000000000)%Z -> ((s * 1000000000 + r) / 1000000000 = s)%Z.
Proof. intros Hr. symmetry. apply Z.div_unique with (r := r); lia. Qed.

(** The projection to a unit is the floor of the instant over the unit (the
    part of the instant below the unit is dropped), whenever that number is
    an [int64]. *)
Lemma epochOf_floor u tm :
  wfTime tm -> namedUnit u = true ->
  fits 64 (instantNanos tm / unitNanos u) = true ->
  epochOf u tm = Ok (instantNanos tm / unitNanos u)%Z.
Proof.
  unfold wfTime, instantNanos, epochOf. intros Hns Hu Hfit.
  destruct u; try done; simpl in *; f_equal.
  - unfold Unix. by rewrite instant_seconds.
  - unfold UnixMilli, int64.
    assert (Heq : ((unixSec tm * 1000000000 + nsec tm) / 1000000
                   = unixSec tm * 1000 + nsec tm ÷ 1000000)%Z).
    { rewrite Z.quot_div_nonneg by lia.
      replace (unixSec tm * 1000000000)%Z with (unixSec tm * 1000 * 1000000)%Z by lia.
      rewrite Z.div_add_l by lia. done. }
    rewrite Heq in *. by apply wrap_id.
  - unfold UnixMicro, int64.
    assert (Heq : ((unixSec tm * 1000000000 + nsec tm) / 1000
                   = unixSec tm * 1000000 + nsec tm ÷ 1000)%Z).
    { rewrite Z.quot_div_nonneg by lia.
      replace (unixSec tm * 1000000000)%Z with (unixSec tm * 1000000 * 1000)%Z by lia.
      rewrite Z.div_add_l by lia. done. }
    rewrite Heq in *. by apply wrap_id.
  - unfold UnixNano, int64. rewrite Z.div_1_r in *. by apply wrap_id.
Qed.

(** In general the projection is that floor wrapped to 64 bits. *)
Lemma epochOf_wrap u tm :
  wfTime tm -> namedUnit u = true -> fits 64 (unixSec tm) = true ->
  epochOf u tm = Ok (int64 (instantNanos tm / unitNanos u)).
Proof.
  unfold wfTime, instantNanos, epochOf. intros Hns Hu Hfit.
  destruct u; try done; simpl in *; f_equal.
  - unfold Unix, int64. rewrite instant_seconds by done. by rewrite wrap_id.
  - unfold UnixMilli. f_equal.
    rewrite Z.quot_div_nonneg by lia.
    replace (unixSec tm * 1000000000)%Z with (unixSec tm * 1000 * 1000000)%Z by lia.
    by rewrite Z.div_add_l by lia.
  - unfold UnixMicro. f_equal.
    rewrite Z.quot_div_nonneg by lia.
    replace (unixSec tm * 1000000000)%Z with (unixSec tm * 1000000 * 1000)%Z by lia.
    by rewrite Z.div_add_l by lia.
  - unfold UnixNano. by rewrite Z.div_1_r.
Qed.

(** *** The instants that the RFC 3339 path returns *)

Lemma digit_of_bound c d : digit_of c = Some d -> (0 <= d <= 9)%Z.
Proof.
  unfold digit_of. intros H.
  destruct (_ && _) eqn:Hb; [|done]. inversion H; subst.
  apply andb_true_iff in Hb as [H1 H2].
  apply Z.leb_le in H1. apply Z.leb_le in H2. lia.
Qed.

Lemma parseUint_loop_bound cs : forall x n,
  (0 <= x)%Z -> parseUint_loop cs x = Some n ->
  (x * 10 ^ Z.of_nat (length cs) <= n < (x + 1) * 10 ^ Z.of_nat (length cs))%Z.
Proof.
  induction cs as [|c cs IH]; intros x n Hx H; simpl in H.
  - inversion H; subst. simpl. lia.
  - destruct (digit_of c) as [d|] eqn:Hd; [|done].
    apply digit_of_bound in Hd.
    apply IH in H; [|lia].
    replace (Z.of_nat (length (c :: cs))) with (Z.succ (Z.of_nat (length cs)))
      by (simpl; lia).
    rewrite Z.pow_succ_r by lia.
    assert (Hp : (0 < 10 ^ Z.of_nat (length cs))%Z) by (apply Z.pow_pos_nonneg; lia).
    nia.
Qed.

Lemma parseUint_bounds cs lo hi x : parseUint cs lo hi = Some x -> (lo <= x <= hi)%Z.
Proof.
  unfold parseUint. destruct (parseUint_loop cs 0) as [n|]; simpl; [|done].
  destruct ((n <? lo)%Z || (hi <? n)%Z) eqn:Hb; [done|].
  intros H; inversion H; subst.
  apply orb_false_iff in Hb as [H1 H2].
  apply Z.ltb_ge in H1. apply Z.ltb_ge in H2. lia.
Qed.

Lemma parseNanoseconds_bound ds : (0 <= parseNanoseconds ds < 1000000000)%Z.
Proof.
  unfold parseNanoseconds.
  destruct (parseUint_loop (take 9 ds) 0) as [n|] eqn:Hn; [|lia].
  apply parseUint_loop_bound in Hn; [|lia].
  assert (Hlen : length (take 9 ds) <= 9) by (rewrite length_take; lia).
  set (k := length (take 9 ds)) in *.
  assert (Hpow : (10 ^ Z.of_nat k * 10 ^ Z.of_nat (9 - k) = 1000000000)%Z).
  { rewrite <- Z.pow_add_r by lia.
    replace (Z.of_nat k + Z.of_nat (9 - k))%Z with 9%Z by lia. done. }
  assert (Hp1 : (0 < 10 ^ Z.of_nat k)%Z) by (apply Z.pow_pos_nonneg; lia).
  assert (Hp2 : (0 < 10 ^ Z.of_nat (9 - k))%Z) by (apply Z.pow_pos_nonneg; lia).
  nia.
Qed.

Lemma parseZone_bound s off : parseZone s = Some off -> (- 86340 <= off <= 86340)%Z.
Proof.
  unfold parseZone.
  assert (Hgen :
    (if negb (length s =? 6)
     then None
     else
       hr ← parseUint (slice s 1 3) 0 23;
       mm ← parseUint (slice s 4 6) 0 59;
       if negb ((charAt s 0 "-" || charAt s 0 "+") && charAt s 3 ":") then None
       else Some (if charAt s 0 "-" then (- ((hr * 60 + mm) * 60))%Z
                  else ((hr * 60 + mm) * 60)%Z)) = Some off ->
    (- 86340 <= off <= 86340)%Z).
  { destruct (negb (length s =? 6)); [done|].
    destruct (parseUint (slice s 1 3) 0 23) as [hr|] eqn:Hhr; simpl; [|done].
    destruct (parseUint (slice s 4 6) 0 59) as [mm|] eqn:Hmm; simpl; [|done].
    apply parseUint_bounds in Hhr. apply parseUint_bounds in Hmm.
    destruct (negb _); [done|].
    intros H; inversion H; subst. destruct (charAt s 0 "-"); lia. }
  destruct s as [|c [|c' s']]; try exact Hgen.
  destruct (Ascii.eqb c "Z"); [|done]. intros H; inversion H; lia.
Qed.

Lemma daysBefore_bound m : (0 <= m <= 12)%Z -> (0 <= daysBefore m <= 365)%Z.
Proof.
  intros Hm. unfold daysBefore.
  assert (Hc : (Z.to_nat m <= 12)%nat) by lia.
  destruct (Z.to_nat m) as [|[|[|[|[|[|[|[|[|[|[|[|[|k]]]]]]]]]]]]]; simpl; lia.
Qed.

Lemma Date_bound year month day hour min sec ns :
  (0 <= year <= 9999)%Z -> (1 <= month <= 12)%Z -> (1 <= day <= 31)%Z ->
  (0 <= hour <= 23)%Z -> (0 <= min <= 59)%Z -> (0 <= sec <= 59)%Z ->
  (- 62200000000 <= unixSec (Date year month day hour min sec ns) <= 253500000000)%Z.
Proof.
  intros Hy Hm Hd Hh Hmi Hs. unfold Date. simpl.
  pose proof (daysBefore_bound (month - 1) ltac:(lia)) as Hdb.
  assert (Hleap : (0 <= (if isLeap year && (3 <=? month)%Z then 1 else 0) <= 1)%Z)
    by (destruct (_ && _); lia).
  unfold daysSinceEpoch, leapsThrough.
  change (1969 / 4 - 1969 / 100 + 1969 / 400)%Z with 477%Z.
  pose proof (Z.div_mod (year - 1) 4 ltac:(lia)) as H4.
  pose proof (Z.mod_pos_bound (year - 1) 4 ltac:(lia)) as H4b.
  pose proof (Z.div_mod (year - 1) 100 ltac:(lia)) as H100.
  pose proof (Z.mod_pos_bound (year - 1) 100 ltac:(lia)) as H100b.
  pose proof (Z.div_mod (year - 1) 400 ltac:(lia)) as H400.
  pose proof (Z.mod_pos_bound (year - 1) 400 ltac:(lia)) as H400b.
  lia.
Qed.

(** A time that the RFC 3339 path returns is in normal form and lies between
    the years 0 and 9999. *)
Lemma parseRFC3339_range value tm :
  parseRFC3339 value = Some tm ->
  wfTime tm /\ (- 62300000000 <= unixSec tm <= 253600000000)%Z.
Proof.
  unfold parseRFC3339, wfTime.
  set (s := list_ascii_of_string value).
  destruct (length s <? 19); [done|].
  destruct (parseUint (slice s 0 4) 0 9999) as [year|] eqn:Hy; simpl; [|done].
  destruct (parseUint (slice s 5 7) 1 12) as [month|] eqn:Hm; simpl; [|done].
  destruct (parseUint (slice s 8 10) 1 (daysIn month year)) as [day|] eqn:Hd; simpl; [|done].
  destruct (parseUint (slice s 11 13) 0 23) as [hour|] eqn:Hh; simpl; [|done].
  destruct (parseUint (slice s 14 16) 0 59) as [min|] eqn:Hmi; simpl; [|done].
  destruct (parseUint (slice s 17 19) 0 59) as [sec|] eqn:Hs; simpl; [|done].
  apply parseUint_bounds in Hy, Hm, Hd, Hh, Hmi, Hs.
  destruct (negb _); [done|].
  assert (Hday : (day <= 31)%Z).
  { assert (Hin : (daysIn month year <= 31)%Z); [|lia].
    unfold daysIn. destruct (_ && _); [lia|].
    unfold daysBefore.
    assert (Hc : (1 <= Z.to_nat month <= 12)%nat) by lia.
    replace (Z.to_nat (month - 1)) with (Z.to_nat month - 1)%nat by lia.
    destruct (Z.to_nat month) as [|[|[|[|[|[|[|[|[|[|[|[|[|k]]]]]]]]]]]]]; simpl; lia. }
  match goal with
  | |- context [let '(ns, s0) := ?e in _] =>
      assert (Hns : (0 <= fst e < 1000000000)%Z); [|destruct e as [ns rest]]
  end.
  { destruct (drop 19 s) as [|dot [|d rest]]; [simpl; lia|simpl; lia|].
    destruct (Ascii.eqb dot "." && isDigit d); [|simpl; lia].
    destruct (span_digits _) as [ds rest']. simpl.
    apply parseNanoseconds_bound. }
  simpl in Hns.
  destruct (parseZone rest) as [off|] eqn:Hz; simpl; [|done].
  apply parseZone_bound in Hz.
  intros H; inversion H; subst; simpl.
  pose proof (Date_bound year month day hour min sec ns
                ltac:(lia) ltac:(lia) ltac:(lia) ltac:(lia) ltac:(lia) ltac:(lia)) as Hb.
  simpl in Hb. split; [done|lia].
Qed.

Lemma fits64_bounds z :
  (- 9223372036854775808 <= z < 9223372036854775808)%Z -> fits 64 z = true.
Proof.
  intros H. unfold fits. change (2 ^ (64 - 1))%Z with 9223372036854775808%Z.
  apply andb_true_iff. split; [apply Z.leb_le | apply Z.ltb_lt]; lia.
Qed.

Lemma epochOf_RFC3339 value tm u :
  parseRFC3339 value = Some tm ->
  u = Second \/ u = Millisecond \/ u = Microsecond ->
  epochOf u tm = Ok (instantNanos tm / unitNanos u)%Z.
Proof.
  intros Hp Hu. destruct (parseRFC3339_range _ _ Hp) as [Hwf Hrange].
  apply epochOf_floor; [done|by destruct Hu as [->|[->| ->]]|].
  apply fits64_bounds. unfold instantNanos, wfTime in *.
  destruct Hu as [->|[->| ->]]; simpl.
  - rewrite instant_seconds by done. lia.
  - pose proof (Z.div_mod (unixSec tm * 1000000000 + nsec tm) 1000000 ltac:(lia)).
    pose proof (Z.mod_pos_bound (unixSec tm * 1000000000 + nsec tm) 1000000 ltac:(lia)).
    lia.
  - pose proof (Z.div_mod (unixSec tm * 1000000000 + nsec tm) 1000 ltac:(lia)).
    pose proof (Z.mod_pos_bound (unixSec tm * 1000000000 + nsec tm) 1000 ltac:(lia)).
    lia.
Qed.

(** C3. Timestamp coercion takes text only: the JSON loader rejects every
    other JSON value for a timestamp field. The text is parsed with the
    RFC 3339 layout (date, time and offset) to an instant; text that does not
    parse is an error. The instant is projected to the unit of the field by
    dropping what lies below the unit (the floor of the instant over the
    unit, never the nearest multiple), as an [int64]. The text
    [2024-01-01T00:00:01Z] gives [1704067201000000] in a microsecond field
    and [1704067201] in a second field. *)
Theorem timestamp_coercion (P : Platform) :
  (forall rowNum rec i field builders u tz val,
     Type_ field = TimestampType u tz -> rec !! Name field = Some val ->
     val <> JNull -> (forall s, val <> JString s) ->
     jsonCell P rowNum rec i field builders
       = Err (ErrInvalidTimestampType (rowNum + 1) (Name field) val)) /\
  (forall rowNum rec i field builders u tz val,
     Type_ field = TimestampType u tz -> rec !! Name field = Some (JString val) ->
     String.eqb val "" && Nullable field = false ->
     jsonCell P rowNum rec i field builders =
       match time_Parse P val with
       | None => Err (ErrInvalidTimestamp (rowNum + 1) (Name field) val)
       | Some tm =>
           epoch <- epochOf u tm ;;
           appendTo isTimestampBuilder i (Some (VTimestamp epoch)) builders
       end) /\
  (forall schema rowNum i field builders u tz val,
     Fields schema !! i = Some field -> Type_ field = TimestampType u tz ->
     String.eqb val "" && Nullable field = false ->
     csvCell P schema rowNum i val builders =
       match time_Parse P val with
       | None => Err (ErrInvalidTimestamp rowNum (Name field) val)
       | Some tm =>
           epoch <- epochOf u tm ;;
           appendTo isTimestampBuilder i (Some (VTimestamp epoch)) builders
       end) /\
  (forall u tm,
     wfTime tm -> namedUnit u = true -> fits 64 (unixSec tm) = true ->
     epochOf u tm = Ok (int64 (instantNanos tm / unitNanos u)) /\
     (instantNanos tm / unitNanos u * unitNanos u <= instantNanos tm
        < (instantNanos tm / unitNanos u + 1) * unitNanos u)%Z) /\
  (forall u tm,
     wfTime tm -> namedUnit u = true ->
     fits 64 (instantNanos tm / unitNanos u) = true ->
     epochOf u tm = Ok (instantNanos tm / unitNanos u)%Z) /\
  (forall value tm u,
     parseRFC3339 value = Some tm ->
     time_Parse P value = Some tm /\
     (u = Second \/ u = Millisecond \/ u = Microsecond ->
      epochOf u tm = Ok (instantNanos tm / unitNanos u)%Z)) /\
  loadDataFromFile P (Some [CSVFields ["ts"%string];
                            CSVFields ["2024-01-01T00:00:01Z"%string]])
      (tsSchema Microsecond)
    = Ok (mkRecord (tsSchema Microsecond)
            [mkArray (TimestampType Microsecond "UTC")
               [Some (VTimestamp 1704067201000000)]] 1) /\
  loadDataFromFile P (Some [CSVFields ["ts"%string];
                            CSVFields ["2024-01-01T00:00:01Z"%string]])
      (tsSchema Second)
    = Ok (mkRecord (tsSchema Second)
            [mkArray (TimestampType Second "UTC") [Some (VTimestamp 1704067201)]] 1) /\
  loadDataFromJSON P
      (Some (mkJSONText
               [JObject {[ "ts"%string := JString "2024-01-01T00:00:01Z" ]}] false, true))
      (tsSchema Microsecond)
    = Ok (mkRecord (tsSchema Microsecond)
            [mkArray (TimestampType Microsecond "UTC")
               [Some (VTimestamp 1704067201000000)]] 1) /\
  loadDataFromJSON P
      (Some (mkJSONText
               [JObject {[ "ts"%string := JString "2024-01-01T00:00:01Z" ]}] false, true))
      (tsSchema Second)
    = Ok (mkRecord (tsSchema Second)
            [mkArray (TimestampType Second "UTC") [Some (VTimestamp 1704067201)]] 1).
Proof.
  split; [|split; [|split; [|split; [|split; [|split; [|split; [|split; [|split]]]]]]]].
  - intros rowNum rec i field builders u tz val Hty Hval Hnull Hstr.
    unfold jsonCell. rewrite Hval, Hty.
    destruct val; try done. by destruct (Hstr s).
  - intros rowNum rec i field builders u tz val Hty Hval Hempty.
    unfold jsonCell. by rewrite Hval, Hty, Hempty.
  - intros schema rowNum i field builders u tz val Hi Hty Hempty.
    unfold csvCell. by rewrite Hi, Hty, Hempty.
  - intros u tm Hwf Hu Hfit. split; [by apply epochOf_wrap|].
    assert (Hpos : (0 < unitNanos u)%Z) by (by destruct u).
    pose proof (Z.div_mod (instantNanos tm) (unitNanos u) ltac:(lia)).
    pose proof (Z.mod_pos_bound (instantNanos tm) (unitNanos u) Hpos).
    lia.
  - intros u tm Hwf Hu Hfit. by apply epochOf_floor.
  - intros value tm u Hp. split.
    + unfold time_Parse. by rewrite Hp.
    + intros Hu. by eapply epochOf_RFC3339.
  - vm_compute. reflexivity.
  - vm_compute. reflexivity.
  - vm_compute. reflexivity.
  - vm_compute. reflexivity.
Qed.

Lemma timestamp_coercion_witness :
  epochOf Millisecond (mkTime (-1) 500000000) = Ok (-500)%Z /\
  epochOf Second (mkTime (-1) 500000000) = Ok (int64 (-1)) /\
  csvCell examplePlatform (tsSchema Nanosecond) 2 0 "1969-12-31T23:59:59.5Z"
      [NewTimestampBuilder Nanosecond "UTC"]
    = Ok [mkBuilder (TimestampType Nanosecond "UTC") [Some (VTimestamp (-500000000))]] /\
  jsonCell examplePlatform 0 {[ "ts"%string := JNumber 1704067201%float ]} 0
      (mkField "ts" (TimestampType Second "UTC") false)
      [NewTimestampBuilder Second "UTC"]
    = Err (ErrInvalidTimestampType 1 "ts" (JNumber 1704067201%float)).
Proof.
  pose proof (timestamp_coercion examplePlatform) as (H1 & H2 & H3 & H4 & H5 & H6 & _).
  split; [|split; [|split]].
  - exact (H5 Millisecond (mkTime (-1) 500000000)
             ltac:(unfold wfTime; simpl; lia) eq_refl eq_refl).
  - exact (proj1 (H4 Second (mkTime (-1) 500000000)
             ltac:(unfold wfTime; simpl; lia) eq_refl eq_refl)).
  - rewrite (H3 (tsSchema Nanosecond) 2 0 (mkField "ts" (TimestampType Nanosecond "UTC") false)
               [NewTimestampBuilder Nanosecond "UTC"] Nanosecond "UTC"%string
               "1969-12-31T23:59:59.5Z"%string eq_refl eq_refl eq_refl).
    vm_compute. reflexivity.
  - exact (H1 0 {[ "ts"%string := JNumber 1704067201%float ]} 0
             (mkField "ts" (TimestampType Second "UTC") false)
             [NewTimestampBuilder Second "UTC"] Second "UTC"%string
             (JNumber 1704067201%float) eq_refl eq_refl
             ltac:(discriminate) ltac:(discriminate)).
Defined.

(** ** Required fields *)

Lemma makeBuilders_no_panic schema p : makeBuilders schema <> Panic p.
Proof.
  unfold makeBuilders. induction (Fields schema) as [|f fs IH]; simpl; [done|].
  unfold newBuilder at 1. destruct (Type_ f); simpl; try done.
  all: destruct (mapR newBuilder fs); simpl; done.
Qed.

(** A run of the JSON loader over an object that lacks a required field
    returns an error. *)
Lemma loadDataFromJSON_missing P text canSeek schema records k rec field :
  readRecords (Open text canSeek) = Ok records ->
  records !! k = Some rec -> field ∈ Fields schema ->
  Nullable field = false -> missing rec field ->
  exists e, loadDataFromJSON P (Some (text, canSeek)) schema = Err e.
Proof.
  intros Hread Hk Hin Hnn Hmiss. unfold loadDataFromJSON.
  destruct (makeBuilders schema) as [bs|e|p] eqn:Hbs; simpl.
  2:{ by exists e. }
  2:{ by destruct (makeBuilders_no_panic schema p). }
  rewrite Hread. simpl.
  destruct (makeBuilders_good _ _ Hbs) as [Hgood _].
  pose proof (jsonRecords_spec P schema records 0 bs Hgood) as Hspec.
  unfold jsonRecords, forRange.
  destruct (rangeFrom (jsonRecord P schema) 0 records bs) as [bs'|e|p]; simpl.
  - destruct Hspec as (vss & Hvss & _).
    destruct (Forall2_lookup_l _ _ _ _ _ Hvss Hk) as (vs & _ & Hrow).
    apply list_elem_of_lookup in Hin as [i Hi].
    destruct (Forall2_lookup_l _ _ _ _ _ Hrow Hi) as (v & _ & Hslot).
    destruct (Hslot Hmiss) as [Hn _]. congruence.
  - by exists e.
  - done.
Qed.

(** An empty cell for a required String field loads as the empty string. *)
Lemma empty_string_is_a_value :
  (fun P => loadDataFromFile P
     (Some [CSVFields ["id"; "name"]; CSVFields ["7"; ""]]%string)
     (mkSchema [mkField "id" Int64Type false; mkField "name" StringType false]))
  = (fun _ => Ok (mkRecord
       (mkSchema [mkField "id" Int64Type false; mkField "name" StringType false])
       [mkArray Int64Type [Some (VInt64 7)]; mkArray StringType [Some (VString "")]] 1)).
Proof. vm_compute. reflexivity. Qed.

(** C2 (amended). For every non-nullable field, a JSON object in which the
    field's key is absent or null makes the load fail: the cell returns the
    error "missing non-nullable field" with the row and the field's name, and
    the run returns an error and no batch. An empty text ([""] in a CSV cell
    or as a JSON string) is not a missing value: for a non-nullable Int64 or
    Int32 field it fails as an invalid integer, and for a non-nullable String
    field it is appended as the empty string. *)
Theorem missing_required_field (P : Platform) :
  (forall rowNum rec i field builders,
     missing rec field -> Nullable field = false ->
     jsonCell P rowNum rec i field builders
       = Err (ErrMissingNonNullable (rowNum + 1) (Name field))) /\
  (forall text canSeek schema records k rec field,
     readRecords (Open text canSeek) = Ok records ->
     records !! k = Some rec -> field ∈ Fields schema ->
     Nullable field = false -> missing rec field ->
     exists e, loadDataFromJSON P (Some (text, canSeek)) schema = Err e) /\
  (forall schema rowNum i field builders,
     Fields schema !! i = Some field -> Nullable field = false ->
     (Type_ field = Int64Type ->
      csvCell P schema rowNum i "" builders = Err (ErrInvalidInt64 rowNum (Name field) "")) /\
     (Type_ field = Int32Type ->
      csvCell P schema rowNum i "" builders = Err (ErrInvalidInt32 rowNum (Name field) "")) /\
     (Type_ field = StringType ->
      csvCell P schema rowNum i "" builders
        = appendTo isStringBuilder i (Some (VString "")) builders)) /\
  (forall rowNum rec i field builders,
     rec !! Name field = Some (JString "") -> Nullable field = false ->
     (Type_ field = Int64Type ->
      jsonCell P rowNum rec i field builders
        = Err (ErrInvalidInt64 (rowNum + 1) (Name field) "")) /\
     (Type_ field = Int32Type ->
      jsonCell P rowNum rec i field builders
        = Err (ErrInvalidInt32 (rowNum + 1) (Name field) "")) /\
     (Type_ field = StringType ->
      jsonCell P rowNum rec i field builders
        = appendTo isStringBuilder i (Some (VString "")) builders)).
Proof.
  split; [|split; [|split]].
  - intros rowNum rec i field builders Hmiss Hnn. unfold jsonCell.
    destruct Hmiss as [-> | ->]; by rewrite Hnn.
  - intros. by eapply loadDataFromJSON_missing.
  - intros schema rowNum i field builders Hi Hnn. unfold csvCell. rewrite Hi, Hnn.
    repeat split; intros ->; done.
  - intros rowNum rec i field builders Hv Hnn. unfold jsonCell. rewrite Hv, Hnn.
    repeat split; intros ->; done.
Qed.

Lemma missing_required_field_witness :
  (exists e,
     loadDataFromJSON examplePlatform
       (Some (mkJSONText [JObject {[ "age"%string := JNumber 20%float ]}] false, true))
       (idAgeSchema true) = Err e) /\
  jsonCell examplePlatform 0 {[ "age"%string := JNumber 20%float ]} 0
      (mkField "id" Int64Type false) [NewInt64Builder; NewInt32Builder]
    = Err (ErrMissingNonNullable 1 "id").
Proof.
  pose proof (missing_required_field examplePlatform) as (H1 & H2 & _).
  split.
  - apply (H2 (mkJSONText [JObject {[ "age"%string := JNumber 20%float ]}] false) true
              (idAgeSchema true) [{[ "age"%string := JNumber 20%float ]}] 0
              {[ "age"%string := JNumber 20%float ]} (mkField "id" Int64Type false)).
    + vm_compute. reflexivity.
    + reflexivity.
    + apply list_elem_of_here.
    + reflexivity.
    + left. vm_compute. reflexivity.
  - apply (H1 0 {[ "age"%string := JNumber 20%float ]} 0 (mkField "id" Int64Type false)).
    + left. vm_compute. reflexivity.
    + reflexivity.
Defined.

(** ** The blob loader *)

(** A loop whose body appends to the builder at its index the slot that a
    function of the element gives, or returns that function's error. *)
Lemma rangeFrom_slots {A} (body : nat -> A -> list Builder -> res (list Builder))
    (good : A -> Builder -> Prop) (slot : A -> res (option Value)) :
  (forall i x bs b, bs !! i = Some b -> good x b ->
     body i x bs = (v <- slot x ;; Ok (<[i := push v b]> bs))) ->
  forall xs pre cur, Forall2 good xs cur ->
    rangeFrom body (length pre) xs (pre ++ cur)
      = (vs <- mapR slot xs ;; Ok (pre ++ pushAll cur vs)).
Proof.
  intros Hbody. induction xs as [|x xs IH]; intros pre cur Hgood.
  - inversion Hgood; subst. done.
  - inversion Hgood as [|? b ? cur' Hx Hrest]; subst. simpl.
    assert (Hb : (pre ++ b :: cur') !! length pre = Some b).
    { by rewrite lookup_app_r, Nat.sub_diag by lia. }
    rewrite (Hbody _ _ _ _ Hb Hx).
    destruct (slot x) as [v| |]; simpl; try done.
    replace (<[length pre := push v b]> (pre ++ b :: cur'))
      with ((pre ++ [push v b]) ++ cur').
    2:{ rewrite insert_app_r_alt, Nat.sub_diag by lia. simpl. by rewrite <- app_assoc. }
    specialize (IH (pre ++ [push v b]) cur' Hrest).
    rewrite length_app in IH. simpl in IH.
    replace (length pre + 1) with (S (length pre)) in IH by lia.
    rewrite IH. destruct (mapR slot xs) as [vs| |]; simpl; try done.
    by rewrite <- app_assoc.
Qed.

Lemma blobCell_slot fs blobs i f bs b :
  bs !! i = Some b -> b = blobBuilder f ->
  blobCell fs blobs i f bs = (v <- blobValue fs blobs f ;; Ok (<[i := push v b]> bs)).
Proof.
  intros Hb ->. unfold blobCell, blobValue, appendNullAt, appendTo.
  destruct (blobs !! Name f) as [path|]; [|by rewrite Hb].
  destruct (fs !! path) as [data|]; [|done].
  rewrite Hb. unfold blobBuilder. by destruct (Type_ f).
Qed.

Lemma loadBlobRecord_slots fs blobs schema :
  loadBlobRecord fs blobs schema =
    (vs <- mapR (blobValue fs blobs) (Fields schema) ;;
     NewRecord schema
       (map NewArray (pushAll (map blobBuilder (Fields schema)) vs)) 1).
Proof.
  unfold loadBlobRecord, forRange.
  assert (Hgood : forall fields : list Field,
    Forall2 (fun f b => b = blobBuilder f) fields (map blobBuilder fields)).
  { induction fields; by constructor. }
  pose proof (rangeFrom_slots _ (fun f b => b = blobBuilder f) (blobValue fs blobs)
                (blobCell_slot fs blobs) (Fields schema) []
                (map blobBuilder (Fields schema)) (Hgood _)) as Hloop.
  simpl in Hloop. rewrite Hloop.
  by destruct (mapR _ _).
Qed.

Lemma blob_columns_lookup (fields : list Field) vs i f :
  length vs = length fields -> fields !! i = Some f ->
  exists v, vs !! i = Some v /\
    map NewArray (pushAll (map blobBuilder fields) vs) !! i
      = Some (mkArray (b_type (blobBuilder f)) [v]).
Proof.
  intros Hlen Hi.
  assert (is_Some (vs !! i)) as [v Hv].
  { apply lookup_lt_is_Some. rewrite Hlen. by eapply lookup_lt_Some. }
  exists v. split; [done|].
  rewrite list_lookup_fmap.
  rewrite (pushAll_lookup _ _ _ (blobBuilder f) v); [|by rewrite list_lookup_fmap, Hi|done].
  simpl. unfold NewArray, blobBuilder. by destruct (Type_ f).
Qed.

Lemma validate_columns_None fs arrs rows :
  Forall2 (fun f a => DataType_ a = Type_ f /\ (rows <= Z.of_nat (Len a))%Z) fs arrs ->
  validate_columns fs arrs rows = None.
Proof.
  induction 1 as [|f a fs arrs [Hty Hlen] _ IH]; simpl; [done|].
  destruct (Z.ltb_spec (Z.of_nat (Len a)) rows); [lia|].
  unfold TypeEqual. rewrite bool_decide_eq_true_2 by done. done.
Qed.

Lemma blob_columns_valid (fields : list Field) : forall vs,
  length vs = length fields ->
  Forall (fun f => blobType (Type_ f) = true) fields ->
  Forall2 (fun f a => DataType_ a = Type_ f /\ (1 <= Z.of_nat (Len a))%Z) fields
    (map NewArray (pushAll (map blobBuilder fields) vs)).
Proof.
  induction fields as [|f fields IH]; intros [|v vs] Hlen Hty; simpl in *; try done.
  inversion Hty as [|? ? Hf Hrest]; subst.
  constructor; [|apply IH; [lia|done]].
  unfold blobBuilder, Len. destruct (Type_ f); simpl in *; try done; split; try done; lia.
Qed.

Lemma blobValue_reads fs blobs (fields : list Field) :
  (forall f path, f ∈ fields -> blobs !! Name f = Some path -> is_Some (fs !! path)) ->
  exists vs, mapR (blobValue fs blobs) fields = Ok vs.
Proof.
  induction fields as [|f fields IH]; intros Hread; simpl.
  - by exists [].
  - destruct IH as [vs Hvs].
    { intros f' path Hin. apply Hread. by apply list_elem_of_further. }
    rewrite Hvs. unfold blobValue at 1.
    destruct (blobs !! Name f) as [path|] eqn:Hp; simpl; [|by eexists].
    destruct (Hread f path (list_elem_of_here _ _) Hp) as [data ->]. simpl. by eexists.
Qed.

(** C4. A batch that the blob loader returns has exactly one row. For every
    field of the schema whose name is in the mapping, the column holds the
    whole content of the mapped file: the bytes for a Binary or LargeBinary
    field, the bytes as a string for a String field. For every field whose
    name is not in the mapping, the column holds null, whether or not the
    field is nullable. The loader returns a batch whenever every field is
    Binary, LargeBinary or String and every mapped file can be read. *)
Theorem blob_record (fs : gmap string (list Byte.byte)) (blobs : gmap string string)
    (schema : Schema) :
  (forall r, loadBlobRecord fs blobs schema = Ok r ->
     rec_rows r = 1%Z /\
     forall i f, Fields schema !! i = Some f ->
       exists col,
         rec_columns r !! i = Some col /\
         match blobs !! Name f with
         | Some path =>
             exists data,
               fs !! path = Some data /\
               Data col = [Some (match Type_ f with
                                 | BinaryType | LargeBinaryType => VBinary data
                                 | _ => VString (string_of_list_byte data)
                                 end)]
         | None => Data col = [None]
         end) /\
  (Forall (fun f => blobType (Type_ f) = true) (Fields schema) ->
   (forall f path, f ∈ Fields schema -> blobs !! Name f = Some path ->
      is_Some (fs !! path)) ->
   exists r, loadBlobRecord fs blobs schema = Ok r) /\
  (forall data : list Byte.byte,
     loadBlobRecord {[ "/tmp/a.bin"%string := data ]}
       {[ "photo"%string := "/tmp/a.bin"%string ]} photoSchema
     = Ok (mkRecord photoSchema
             [mkArray BinaryType [Some (VBinary data)]; mkArray StringType [None]] 1)) /\
  loadBlobRecord ∅ ∅ (mkSchema [mkField "caption" StringType false])
    = Ok (mkRecord (mkSchema [mkField "caption" StringType false])
            [mkArray StringType [None]] 1).
Proof.
  split; [|split; [|split]].
  - intros r H. rewrite loadBlobRecord_slots in H.
    apply bind_Ok in H as (vs & Hvs & H).
    destruct (NewRecord_Ok _ _ _ _ H) as (_ & Hc & _ & Hrows).
    split; [apply Hrows; lia|].
    intros i f Hi. rewrite Hc.
    destruct (blob_columns_lookup _ vs i f (mapR_length _ _ _ Hvs) Hi) as (v & Hv & Hcol).
    eexists. split; [exact Hcol|]. simpl.
    destruct (mapR_lookup _ _ _ _ _ Hvs Hi) as (v' & Hv' & Hslot).
    assert (v' = v) as -> by congruence.
    unfold blobValue in Hslot.
    destruct (blobs !! Name f) as [path|]; [|by inversion Hslot].
    destruct (fs !! path) as [data|]; [|done].
    exists data. split; [done|]. by inversion Hslot.
  - intros Hty Hread. rewrite loadBlobRecord_slots.
    destruct (blobValue_reads fs blobs (Fields schema) Hread) as [vs Hvs].
    rewrite Hvs. simpl.
    pose proof (blob_columns_valid _ vs (mapR_length _ _ _ Hvs) Hty) as Hvalid.
    unfold NewRecord. simpl. unfold validate.
    rewrite (validate_columns_None _ _ _ Hvalid).
    rewrite (Forall2_length_r _ _ _ Hvalid), Nat.eqb_refl. simpl. by eexists.
  - intros data. vm_compute. reflexivity.
  - vm_compute. reflexivity.
Qed.

Lemma blob_record_witness :
  exists r,
    loadBlobRecord {[ "/tmp/a.bin"%string := [Byte.x4c; Byte.x42] ]}
      {[ "photo"%string := "/tmp/a.bin"%string; "caption"%string := "/tmp/a.bin"%string ]}
      photoSchema = Ok r /\
    rec_rows r = 1%Z /\
    rec_columns r = [mkArray BinaryType [Some (VBinary [Byte.x4c; Byte.x42])];
                     mkArray StringType [Some (VString "LB")]].
Proof.
  pose proof (blob_record {[ "/tmp/a.bin"%string := [Byte.x4c; Byte.x42] ]}
    {[ "photo"%string := "/tmp/a.bin"%string; "caption"%string := "/tmp/a.bin"%string ]}
    photoSchema) as (Hok & Hex & _).
  destruct Hex as [r Hr].
  { repeat constructor. }
  { intros f path Hin Hp.
    assert (Hpath : path = "/tmp/a.bin"%string).
    { apply list_elem_of_In in Hin. simpl in Hin.
      destruct Hin as [<-|[<-|[]]]; vm_compute in Hp; by inversion Hp. }
    subst path. vm_compute. eauto. }
  exists r. split; [exact Hr|].
  split; [exact (proj1 (Hok r Hr))|].
  vm_compute in Hr. by inversion Hr.
Defined.

(** ** Concatenation of batches *)

Lemma sumRows_app l1 l2 : sumRows (l1 ++ l2) = (sumRows l1 + sumRows l2)%Z.
Proof. induction l1 as [|r l1 IH]; simpl; [done|]. rewrite IH. lia. Qed.

Lemma sumRows_nonneg schema records :
  Forall (validBatch schema) records -> (0 <= sumRows records)%Z.
Proof.
  induction 1 as [|r records [_ Hr] _ IH]; simpl; lia.
Qed.

Lemma totalRows_sum schema records :
  Forall (validBatch schema) records ->
  (sumRows records < 2 ^ 63)%Z ->
  totalRows records = sumRows records.
Proof.
  unfold totalRows. intros Hvalid.
  assert (Hgen : forall acc, (0 <= acc)%Z -> (acc + sumRows records < 2 ^ 63)%Z ->
    fold_left (fun total rec => int64 (total + NumRows rec)) records acc
      = (acc + sumRows records)%Z).
  { induction Hvalid as [|r records [_ Hr] Hrest IH]; intros acc Hacc Hsum; simpl in *.
    - lia.
    - pose proof (sumRows_nonneg _ _ Hrest) as Hnn.
      unfold int64 at 2, NumRows. rewrite wrap_id.
      + rewrite IH by lia. lia.
      + apply fits64_bounds. lia. }
  intros Hsum. rewrite Hgen; lia.
Qed.

Lemma mapR_ext_Ok {A B} (f : A -> res B) (g : A -> B) (l : list A) :
  (forall x, x ∈ l -> f x = Ok (g x)) -> mapR f l = Ok (map g l).
Proof.
  induction l as [|x l IH]; intros H; simpl; [done|].
  rewrite (H x (list_elem_of_here _ _)). simpl.
  rewrite IH; [done|]. intros y Hy. apply H. by apply list_elem_of_further.
Qed.

Lemma mapR_seq_imap {A B} (f : nat -> res B) (l : list A) :
  forall (g : nat -> A -> B) start,
    (forall i x, l !! i = Some x -> f (start + i) = Ok (g i x)) ->
    mapR f (seq start (length l)) = Ok (imap g l).
Proof.
  induction l as [|x l IH]; intros g start H; simpl; [done|].
  pose proof (H 0 x eq_refl) as H0. rewrite Nat.add_0_r in H0. rewrite H0. simpl.
  rewrite (IH (g ∘ S) (S start)); [done|].
  intros i y Hi. specialize (H (S i) y Hi).
  by replace (S start + i) with (start + S i) by lia.
Qed.

Lemma validBatch_column schema r i f :
  validBatch schema r -> Fields schema !! i = Some f ->
  exists a, rec_columns r !! i = Some a /\ DataType_ a = Type_ f /\
            (rec_rows r <= Z.of_nat (Len a))%Z.
Proof.
  intros [Hcols _] Hi.
  destruct (Forall2_lookup_l _ _ _ _ _ Hcols Hi) as (a & Ha & Hty & Hlen). eauto.
Qed.

Lemma concatColumn_appended schema records i f :
  records <> [] -> Forall (validBatch schema) records ->
  Fields schema !! i = Some f ->
  concatColumn records i = Ok (mkArray (Type_ f) (concat (map (colData i) records))).
Proof.
  intros Hne Hvalid Hi. unfold concatColumn.
  set (col := fun r => mkArray (Type_ f) (colData i r)).
  assert (Hcol : forall r, r ∈ records -> Column (E := Error) r i = Ok (col r)).
  { intros r Hr. apply (proj1 (Forall_forall _ _) Hvalid) in Hr.
    destruct (validBatch_column _ _ _ _ Hr Hi) as (a & Ha & Hty & _).
    unfold Column, col, colData. rewrite Ha, <- Hty. by destruct a. }
  rewrite (mapR_ext_Ok _ col) by done. simpl.
  destruct records as [|r0 records]; [done|]. simpl.
  rewrite (proj2 (forallb_forall _ _)).
  2:{ intros a Ha. apply in_map_iff in Ha as (r & <- & _). simpl.
      unfold TypeEqual. by apply bool_decide_eq_true_2. }
  f_equal. f_equal. f_equal.
  rewrite map_map. done.
Qed.

Lemma NewRecord_valid {E} schema cols rows :
  Forall2 (fun f a => DataType_ a = Type_ f /\ (rows <= Z.of_nat (Len a))%Z)
    (Fields schema) cols ->
  (0 <= rows)%Z ->
  NewRecord (E := E) schema cols rows = Ok (mkRecord schema cols rows).
Proof.
  intros Hcols Hrows. unfold NewRecord.
  destruct (Z.ltb_spec rows 0); [lia|].
  unfold validate. rewrite (validate_columns_None _ _ _ Hcols).
  rewrite (Forall2_length_r _ _ _ Hcols), Nat.eqb_refl. simpl.
  by destruct (_ && _).
Qed.

Lemma concat_length_rows schema records i f :
  Forall (validBatch schema) records -> Fields schema !! i = Some f ->
  (sumRows records <= Z.of_nat (length (concat (map (colData i) records))))%Z.
Proof.
  intros Hvalid Hi. induction Hvalid as [|r records Hr _ IH]; simpl; [lia|].
  destruct (validBatch_column _ _ _ _ Hr Hi) as (a & Ha & _ & Hlen).
  rewrite length_app. unfold colData at 1. rewrite Ha. unfold Len in Hlen. lia.
Qed.

Lemma appended_valid schema records :
  Forall (validBatch schema) records -> validBatch schema (appended schema records).
Proof.
  intros Hvalid. split; [|by eapply sumRows_nonneg].
  simpl. apply Forall2_lookup. intros i.
  rewrite list_lookup_imap.
  destruct (Fields schema !! i) as [f|] eqn:Hi; simpl; constructor.
  split; [done|]. unfold Len. simpl. by eapply concat_length_rows.
Qed.

(** [concatRecords] returns the batches appended. *)
Lemma concatRecords_appended schema records :
  records <> [] -> Forall (validBatch schema) records ->
  (sumRows records < 2 ^ 63)%Z ->
  concatRecords schema records = Ok (Some (appended schema records)).
Proof.
  intros Hne Hvalid Hsum. unfold concatRecords.
  destruct records as [|r0 rest] eqn:Hrecs; [done|]. rewrite <- Hrecs in *.
  rewrite (mapR_seq_imap _ (Fields schema)
    (fun i f => mkArray (Type_ f) (concat (map (colData i) records))) 0).
  2:{ intros i f Hi. simpl. by apply (concatColumn_appended schema). }
  simpl. rewrite (totalRows_sum schema) by done.
  destruct (appended_valid schema records Hvalid) as [Hcols Hrows].
  by rewrite (NewRecord_valid _ _ _ Hcols Hrows).
Qed.

Lemma colData_appended schema records i f :
  Fields schema !! i = Some f ->
  colData i (appended schema records) = concat (map (colData i) records).
Proof. intros Hi. unfold colData at 1. simpl. by rewrite list_lookup_imap, Hi. Qed.

(** Appending a run of the batches first does not change the result. *)
Lemma appended_flatten schema pre mid suf :
  appended schema (pre ++ appended schema mid :: suf) = appended schema (pre ++ mid ++ suf).
Proof.
  unfold appended at 1 3. f_equal.
  - apply imap_ext. intros i f Hi. simpl. f_equal.
    rewrite !map_app, !concat_app, map_cons, concat_cons.
    by rewrite (colData_appended _ _ _ _ Hi).
  - rewrite !sumRows_app. done.
Qed.

Lemma concatRecords_group schema pre mid suf :
  mid <> [] -> Forall (validBatch schema) (pre ++ mid ++ suf) ->
  (sumRows (pre ++ mid ++ suf) < 2 ^ 63)%Z ->
  concatRecords schema mid = Ok (Some (appended schema mid)) /\
  concatRecords schema (pre ++ appended schema mid :: suf)
    = Ok (Some (appended schema (pre ++ mid ++ suf))).
Proof.
  intros Hne Hvalid Hsum.
  apply Forall_app in Hvalid as [Hpre Hrest].
  apply Forall_app in Hrest as [Hmid Hsuf].
  pose proof (sumRows_nonneg _ _ Hpre). pose proof (sumRows_nonneg _ _ Hmid).
  pose proof (sumRows_nonneg _ _ Hsuf).
  rewrite !sumRows_app in Hsum.
  split.
  - apply concatRecords_appended; [done|done|lia].
  - rewrite <- appended_flatten. apply concatRecords_appended.
    + by destruct pre.
    + apply Forall_app. split; [done|]. constructor; [|done]. by apply appended_valid.
    + rewrite sumRows_app. simpl. lia.
Qed.

(** C5. [concatRecords] appends: for batches of the schema (whose row counts
    sum to an [int64]), column [i] of the result is the columns [i] of the
    batches one after the other in input order, nulls included, and the row
    count of the result is the sum of the row counts. Concatenation is
    associative: concatenating any run of consecutive batches first and then
    the rest gives the same batch; so [[A, B, C]] then [D] and [A] then
    [[B, C, D]] both give the concatenation of [[A, B, C, D]]. *)
Theorem concatRecords_associative (schema : Schema) (records : list ArrowRecord) :
  records <> [] -> Forall (validBatch schema) records ->
  (sumRows records < 2 ^ 63)%Z ->
  exists R,
    concatRecords schema records = Ok (Some R) /\
    validBatch schema R /\
    rec_rows R = sumRows records /\
    (forall i f, Fields schema !! i = Some f ->
       exists col, rec_columns R !! i = Some col /\
                   Data col = concat (map (colData i) records)) /\
    (forall pre mid suf, records = pre ++ mid ++ suf -> mid <> [] ->
       exists M, concatRecords schema mid = Ok (Some M) /\
                 concatRecords schema (pre ++ M :: suf) = Ok (Some R)) /\
    (forall A B C D, records = [A; B; C; D] ->
       exists ABC BCD,
         concatRecords schema [A; B; C] = Ok (Some ABC) /\
         concatRecords schema [B; C; D] = Ok (Some BCD) /\
         concatRecords schema [ABC; D] = Ok (Some R) /\
         concatRecords schema [A; BCD] = Ok (Some R)).
Proof.
  intros Hne Hvalid Hsum. exists (appended schema records).
  split; [by apply concatRecords_appended|].
  split; [by apply appended_valid|].
  split; [done|].
  split.
  { intros i f Hi. simpl. rewrite list_lookup_imap, Hi. simpl. eauto. }
  split.
  { intros pre mid suf -> Hmid.
    destruct (concatRecords_group schema pre mid suf Hmid Hvalid Hsum) as [H1 H2].
    eauto. }
  intros A B C D ->.
  destruct (concatRecords_group schema [] [A; B; C] [D] ltac:(done) Hvalid Hsum) as [H1 H2].
  destruct (concatRecords_group schema [A] [B; C; D] [] ltac:(done) Hvalid Hsum) as [H3 H4].
  exists (appended schema [A; B; C]), (appended schema [B; C; D]).
  split; [exact H1|]. split; [exact H3|]. split; [exact H2|exact H4].
Qed.

Ltac solve_validBatch :=
  unfold validBatch, batchA, batchB, batchC, batchD, batchOf, idAgeSchema; simpl;
  split;
  [ repeat (apply List.Forall2_cons; [split; [reflexivity | unfold Len; simpl; lia]|]);
    apply List.Forall2_nil
  | lia ].

Lemma concatRecords_associative_witness :
  exists R,
    concatRecords (idAgeSchema true) [batchA; batchB; batchC; batchD] = Ok (Some R) /\
    R = batchOf [1; 2; 3; 4; 5]%Z [Some 20; None; None; Some 50; Some 51]%Z /\
    exists ABC BCD,
      concatRecords (idAgeSchema true) [batchA; batchB; batchC] = Ok (Some ABC) /\
      concatRecords (idAgeSchema true) [batchB; batchC; batchD] = Ok (Some BCD) /\
      concatRecords (idAgeSchema true) [ABC; batchD] = Ok (Some R) /\
      concatRecords (idAgeSchema true) [batchA; BCD] = Ok (Some R).
Proof.
  destruct (concatRecords_associative (idAgeSchema true)
              [batchA; batchB; batchC; batchD]) as (R & HR & _ & _ & _ & _ & Hfour).
  - done.
  - repeat (apply Forall_cons_2; [solve_validBatch|]). apply Forall_nil_2.
  - vm_compute. reflexivity.
  - exists R. split; [exact HR|]. split.
    + vm_compute in HR. by inversion HR.
    + exact (Hfour _ _ _ _ eq_refl).
Defined.

(** ** Rows with a wrong number of fields *)

(** The first data row, when its number of fields is not the schema's: the
    reader rejects it if that number is not the header's, and only a row with
    as many fields as the header reaches the check of lines 334-336. *)
Lemma csv_first_row_field_count P schema header row rest builders :
  makeBuilders schema = Ok builders -> header <> [] ->
  length row <> length (Fields schema) ->
  loadDataFromFile P (Some (CSVFields header :: CSVFields row :: rest)) schema =
    if (length row =? length header)%nat
    then Err (ErrRowFieldCount 2 (length (Fields schema)) (length row))
    else Err (ErrReadingRow 2 ErrFieldCount).
Proof.
  intros Hb Hh Hrow. unfold loadDataFromFile. rewrite Hb. simpl.
  unfold readLine, Read. simpl.
  assert (Hpos : (0 <? Z.of_nat (length header))%Z = true).
  { apply Z.ltb_lt. destruct header; [done|simpl; lia]. }
  rewrite Hpos.
  destruct (Nat.eqb_spec (length row) (length header)) as [Heq|Hne].
  - rewrite Heq, Z.eqb_refl. simpl. rewrite <- Heq.
    destruct (Nat.eqb_spec (length row) (length (Fields schema))); [done|]. done.
  - destruct (Z.eqb_spec (Z.of_nat (length row)) (Z.of_nat (length header))); [lia|].
    done.
Qed.

(** C6. A data row of three fields under a header of two fields, against a
    schema of two fields: the run fails with the reader's error "wrong number
    of fields" for row 2, which carries no counts. The error
    "row 2: expected 2 fields, got 3" is returned when the header has three
    fields as well. *)
Theorem csv_field_count_error (P : Platform) :
  loadDataFromFile P
      (Some [CSVFields ["id"; "age"]; CSVFields ["1"; "20"; "x"]]%string)
      (idAgeSchema false)
    = Err (ErrReadingRow 2 ErrFieldCount) /\
  loadDataFromFile P
      (Some [CSVFields ["id"; "age"; "note"]; CSVFields ["1"; "20"; "x"]]%string)
      (idAgeSchema false)
    = Err (ErrRowFieldCount 2 2 3).
Proof. split; vm_compute; reflexivity. Qed.

(** ** The default branches of the sample and blob adapters *)

(** A field of a type outside the switch of [generateSampleData] gets a
    String column ("Default to string for unsupported types"), which
    [NewRecord] refuses: the call panics and returns no batch. The same holds
    for the default builder of [loadBlobRecord]. *)
Lemma sample_data_unsupported_type_panics :
  generateSampleData (tsSchema Second) = Panic (RecordInvalid "column type mismatch") /\
  loadBlobRecord ∅ ∅ (mkSchema [mkField "id" Int64Type true])
    = Panic (RecordInvalid "column type mismatch").
Proof. split; vm_compute; reflexivity. Qed.

(** ** The CSV scenario of the specification *)

(** Header [id,age] and one data row [1,20] against
    [{id: Int64 not null, age: Int32 not null}]: one row, [id = 1],
    [age = 20]. *)
Lemma csv_one_row (P : Platform) :
  loadDataFromFile P (Some [CSVFields ["id"; "age"]; CSVFields ["1"; "20"]]%string)
      (idAgeSchema false)
    = Ok (mkRecord (idAgeSchema false)
            [mkArray Int64Type [Some (VInt64 1)]; mkArray Int32Type [Some (VInt32 20)]] 1).
Proof. vm_compute. reflexivity. Qed.

(** * Further properties of the loaders *)

(** ** strconv.ParseInt *)

Lemma digits_value_nonneg s : forall acc,
  (0 <= acc)%Z -> forall n, digits_value s acc = Some n -> (0 <= n)%Z.
Proof.
  induction s as [|c s IH]; intros acc Hacc n H; simpl in H.
  - inversion H; subst. done.
  - destruct (digit_of c) as [d|] eqn:Hd; [|done].
    apply digit_of_bound in Hd. eapply IH; [|exact H]. lia.
Qed.

(** What [ParseInt] returns fits the width it was asked for, so the
    conversions [int32(v)] of lines 360 and 518 never change the value. *)
Lemma ParseInt_fits s bits z :
  (0 < bits)%Z -> ParseInt s bits = Some z -> fits bits z = true /\ wrap bits z = z.
Proof.
  intros Hbits H.
  assert (Hfit : fits bits z = true); [|split; [done|by apply wrap_id]].
  unfold ParseInt in H. destruct s as [|c s']; [done|].
  destruct (if Ascii.eqb c "+" then (false, s')
            else if Ascii.eqb c "-" then (true, s') else (false, String c s'))
    as [neg body] eqn:Hsign.
  destruct (ParseUint body) as [un|] eqn:Hun; [|done].
  assert (Hnn : (0 <= un)%Z).
  { unfold ParseUint in Hun. destruct body; [done|].
    eapply digits_value_nonneg; [|exact Hun]. lia. }
  assert (Hp : (0 < 2 ^ (bits - 1))%Z) by (apply Z.pow_pos_nonneg; lia).
  unfold fits.
  destruct neg; simpl in H.
  - destruct (Z.ltb_spec (2 ^ (bits - 1)) un); [done|]. inversion H; subst.
    apply andb_true_iff. split; [apply Z.leb_le | apply Z.ltb_lt]; lia.
  - destruct (Z.leb_spec (2 ^ (bits - 1)) un); [done|]. inversion H; subst.
    apply andb_true_iff. split; [apply Z.leb_le | apply Z.ltb_lt]; lia.
Qed.

(** ** The CSV loader, row by row *)

(** A loop over a row whose body appends one slot to the builder at its
    index, where the builder and the slot depend on the index. *)
Lemma rangeFrom_cells_at {A} (body : nat -> A -> list Builder -> res (list Builder))
    (good : nat -> Builder -> Prop) (R : nat -> A -> option Value -> Prop) :
  (forall i x bs b, bs !! i = Some b -> good i b ->
     match body i x bs with
     | Ok bs' => exists v, R i x v /\ bs' = <[i := push v b]> bs
     | Err _ => True
     | Panic _ => False
     end) ->
  forall xs pre cur,
    length xs = length cur ->
    (forall j b, cur !! j = Some b -> good (length pre + j) b) ->
    match rangeFrom body (length pre) xs (pre ++ cur) with
    | Ok bs' =>
        exists vs,
          length vs = length xs /\
          (forall j x v, xs !! j = Some x -> vs !! j = Some v -> R (length pre + j) x v) /\
          bs' = pre ++ pushAll cur vs
    | Err _ => True
    | Panic _ => False
    end.
Proof.
  intros Hbody. induction xs as [|x xs IH]; intros pre cur Hlen Hgood.
  - destruct cur; [|done]. simpl. exists []. split; [done|]. split; [|done].
    intros j x v Hx. by destruct j.
  - destruct cur as [|b cur']; [done|]. simpl.
    assert (Hb : (pre ++ b :: cur') !! length pre = Some b).
    { by rewrite lookup_app_r, Nat.sub_diag by lia. }
    pose proof (Hgood 0 b eq_refl) as Hgb. rewrite Nat.add_0_r in Hgb.
    specialize (Hbody (length pre) x (pre ++ b :: cur') b Hb Hgb).
    destruct (body (length pre) x (pre ++ b :: cur')) as [bs'| |]; simpl; try done.
    destruct Hbody as (v & Hv & ->).
    replace (<[length pre := push v b]> (pre ++ b :: cur'))
      with ((pre ++ [push v b]) ++ cur').
    2:{ rewrite insert_app_r_alt, Nat.sub_diag by lia. simpl. by rewrite <- app_assoc. }
    specialize (IH (pre ++ [push v b]) cur').
    rewrite length_app in IH. simpl in IH.
    replace (length pre + 1) with (S (length pre)) in IH by lia.
    destruct (rangeFrom body (S (length pre)) xs _) as [bs''| |].
    + destruct IH as (vs & Hvs & HR & ->).
      { simpl in Hlen. lia. }
      { intros j b' Hj. specialize (Hgood (S j) b' Hj).
        by replace (S (length pre) + j) with (length pre + S j) by lia. }
      exists (v :: vs). split; [simpl; lia|]. split.
      * intros [|j] x' v' Hx' Hv'; simpl in *.
        -- inversion Hx'; inversion Hv'; subst. by rewrite Nat.add_0_r.
        -- specialize (HR j x' v' Hx' Hv').
           by replace (length pre + S j) with (S (length pre) + j) by lia.
      * simpl. by rewrite <- app_assoc.
    + done.
    + apply IH; [simpl in Hlen; lia|].
      intros j b' Hj. specialize (Hgood (S j) b' Hj).
      by replace (S (length pre) + j) with (length pre + S j) by lia.
Qed.

Lemma csvCell_cell P schema rowNum i val bs b field :
  bs !! i = Some b -> Fields schema !! i = Some field -> builderFor field b ->
  match csvCell P schema rowNum i val bs with
  | Ok bs' => exists v, csvSlot P field val v /\ bs' = <[i := push v b]> bs
  | Err _ => True
  | Panic _ => False
  end.
Proof.
  intros Hb Hi Hgood.
  pose proof (builderFor_type _ _ Hgood) as Hty.
  destruct Hgood as (b0 & Hnew & _).
  unfold csvCell, csvSlot. rewrite Hi.
  unfold newBuilder in Hnew.
  destruct (Type_ field) eqn:Hf; try done.
  all: destruct (String.eqb val "" && Nullable field) eqn:He.
  all: repeat match goal with
    | |- context [match ParseInt ?s ?n with _ => _ end] =>
        let H := fresh "Hparse" in destruct (ParseInt s n) eqn:H
    | |- context [match ParseFloat ?P ?s with _ => _ end] =>
        let H := fresh "Hparse" in destruct (ParseFloat P s) eqn:H
    | |- context [match time_Parse ?P ?s with _ => _ end] =>
        let H := fresh "Hparse" in destruct (time_Parse P s) eqn:H
    | |- context [bind (epochOf ?u ?t) _] =>
        let H := fresh "Hepoch" in destruct (epochOf u t) eqn:H; simpl
    end; try done.
  all: try (unfold epochOf in *; by destruct Unit).
  all: rewrite (appendTo_Ok _ _ _ _ b);
    [ eexists; split; [|reflexivity]
    | done
    | unfold isInt64Builder, isInt32Builder, isFloat64Builder, isStringBuilder,
        isTimestampBuilder; rewrite Hty; by try apply bool_decide_eq_true_2 ].
  all: try done; eauto.
  match goal with
  | H : ParseInt _ 32 = Some ?z |- _ =>
      destruct (ParseInt_fits _ 32 z ltac:(lia) H) as [_ Hw]
  end.
  unfold int32. rewrite Hw. eauto.
Qed.

Lemma pushRows_length vss : forall bs,
  Forall (fun vs => length vs = length bs) vss -> length (pushRows bs vss) = length bs.
Proof.
  induction vss as [|vs vss IH]; intros bs Hlen; [done|].
  inversion Hlen as [|? ? Hvs Hrest]; subst.
  change (pushRows bs (vs :: vss)) with (pushRows (pushAll bs vs) vss).
  rewrite IH; rewrite pushAll_length by done; done.
Qed.

(** The record built from builders that received [length vss] rows of slots:
    for a schema with at least one field, [NewRecord] accepts it. *)
Lemma buildRecord_pushRows schema bs vss :
  Forall2 builderFor (Fields schema) bs ->
  Forall (fun b => b_data b = []) bs ->
  Forall (fun vs => length vs = length bs) vss ->
  Fields schema <> [] ->
  buildRecord schema (pushRows bs vss)
    = Ok (mkRecord schema (map NewArray (pushRows bs vss)) (Z.of_nat (length vss))).
Proof.
  intros Hgood Hempty Hlen Hne.
  assert (Hcols : Forall2 (fun f a => DataType_ a = Type_ f /\ Len a = length vss)
                    (Fields schema) (map NewArray (pushRows bs vss))).
  { apply Forall2_same_length_lookup_2.
    - rewrite length_map, pushRows_length by done. by eapply Forall2_length.
    - intros i f a Hf Ha.
      destruct (Forall2_lookup_l _ _ _ _ _ Hgood Hf) as (b & Hb & Hfb).
      destruct (pushRows_lookup vss bs i b Hb Hlen) as (col & Hcol & Hl).
      rewrite list_lookup_fmap, Hl in Ha. simpl in Ha. inversion Ha; subst.
      simpl. split; [by apply builderFor_type|].
      unfold Len. simpl.
      rewrite (proj1 (Forall_lookup _ _) Hempty i b Hb). simpl.
      by rewrite (Forall2_length_r _ _ _ Hcol). }
  unfold buildRecord.
  destruct (map NewArray (pushRows bs vss)) as [|a0 arrays] eqn:Harr.
  { inversion Hcols as [Hf|]; subst. by destruct Hne. }
  assert (Ha0 : Len a0 = length vss).
  { inversion Hcols as [|? ? ? ? [_ H0] _]; subst. done. }
  rewrite Ha0. apply NewRecord_valid; [|lia].
  eapply Forall2_impl; [exact Hcols|]. intros f a [Hty Hl]. split; [done|lia].
Qed.

Lemma csvRow_slots P schema rowNum row bs :
  Forall2 builderFor (Fields schema) bs ->
  length row = length (Fields schema) ->
  match csvRow P schema rowNum row bs with
  | Ok bs' =>
      exists vs,
        Forall2 (fun fv v => csvSlot P fv.1 fv.2 v) (zip (Fields schema) row) vs /\
        bs' = pushAll bs vs
  | Err _ => True
  | Panic _ => False
  end.
Proof.
  intros Hgood Hlen. unfold csvRow, forRange.
  pose proof (rangeFrom_cells_at (csvCell P schema rowNum)
    (fun i b => exists field, Fields schema !! i = Some field /\ builderFor field b)
    (fun i val v => exists field, Fields schema !! i = Some field /\ csvSlot P field val v))
    as Hloop.
  assert (Hbody : forall i x bs0 b, bs0 !! i = Some b ->
    (exists field, Fields schema !! i = Some field /\ builderFor field b) ->
    match csvCell P schema rowNum i x bs0 with
    | Ok bs' =>
        exists v, (exists field, Fields schema !! i = Some field /\ csvSlot P field x v) /\
                  bs' = <[i := push v b]> bs0
    | Err _ => True
    | Panic _ => False
    end).
  { intros i x bs0 b Hb (field & Hi & Hf).
    pose proof (csvCell_cell P schema rowNum i x bs0 b field Hb Hi Hf) as Hc.
    destruct (csvCell P schema rowNum i x bs0); try done.
    destruct Hc as (v & Hv & ->). eauto. }
  specialize (Hloop Hbody row [] bs).
  simpl in Hloop.
  destruct (rangeFrom (csvCell P schema rowNum) 0 row bs) as [bs'| |]; try done.
  - destruct Hloop as (vs & Hvs & HR & ->).
    { rewrite Hlen. by eapply Forall2_length. }
    { intros j b Hj. destruct (Forall2_lookup_r _ _ _ _ _ Hgood Hj) as (f & Hf & Hfb).
      eauto. }
    exists vs. split; [|done].
    apply Forall2_same_length_lookup_2.
    + rewrite length_zip. lia.
    + intros i [f x] v Hfx Hv.
      apply lookup_zip_with_Some in Hfx as (f' & x' & Heq & Hf & Hx).
      inversion Heq; subst f' x'.
      destruct (HR i x v Hx Hv) as (field & Hfield & Hslot).
      simpl. congruence.
  - apply Hloop.
    + rewrite Hlen. by eapply Forall2_length.
    + intros j b Hj. destruct (Forall2_lookup_r _ _ _ _ _ Hgood Hj) as (f & Hf & Hfb).
      eauto.
Qed.

Lemma csvSlots_length P schema rows vss bs :
  Forall2 builderFor (Fields schema) bs ->
  Forall (fun row => length row = length (Fields schema)) rows ->
  csvSlots P schema rows vss ->
  Forall (fun vs => length vs = length bs) vss.
Proof.
  intros Hgood Hrows Hslots. apply Forall_lookup. intros k vs Hk.
  destruct (Forall2_lookup_r _ _ _ _ _ Hslots Hk) as (row & Hrow & Hvs).
  rewrite (Forall2_length_r _ _ _ Hvs), length_zip.
  rewrite (proj1 (Forall_lookup _ _) Hrows k row Hrow).
  rewrite <- (Forall2_length _ _ _ Hgood). lia.
Qed.

Lemma csvRows_spec P schema lines : forall rowNum fpr bs,
  Forall2 builderFor (Fields schema) bs ->
  match csvRows P schema rowNum fpr lines bs with
  | Ok bs' =>
      exists rows vss,
        lines = map CSVFields rows /\
        Forall (fun row => length row = length (Fields schema)) rows /\
        csvSlots P schema rows vss /\
        bs' = pushRows bs vss
  | Err _ => True
  | Panic _ => False
  end.
Proof.
  induction lines as [|line lines IH]; intros rowNum fpr bs Hgood; simpl.
  - exists [], []. repeat split; constructor.
  - destruct (readLine fpr line) as [[| e |row] fpr'] eqn:Hread; try done.
    { unfold readLine, Read in Hread. simpl in Hread.
      destruct line; repeat (destruct (_ : bool) in Hread); done. }
    assert (Hline : line = CSVFields row).
    { unfold readLine, Read in Hread. simpl in Hread.
      destruct line as [fields|]; [|done].
      destruct (0 <? fpr)%Z; [destruct (negb _)|destruct (fpr =? 0)%Z];
        by inversion Hread. }
    destruct (Nat.eqb_spec (length row) (length (Fields schema))) as [Hlen|]; [|done].
    simpl.
    pose proof (csvRow_slots P schema rowNum row bs Hgood Hlen) as Hrow.
    destruct (csvRow P schema rowNum row bs) as [bs1| |]; simpl; try done.
    destruct Hrow as (vs & Hvs & ->).
    assert (Hgood1 : Forall2 builderFor (Fields schema) (pushAll bs vs)).
    { apply pushAll_good; [done|].
      rewrite (Forall2_length_r _ _ _ Hvs), length_zip. lia. }
    specialize (IH (S rowNum) fpr' (pushAll bs vs) Hgood1).
    destruct (csvRows P schema (S rowNum) fpr' lines (pushAll bs vs)) as [bs2| |];
      try done.
    destruct IH as (rows & vss & -> & Hrows & Hslots & ->).
    exists (row :: rows), (vs :: vss). subst line.
    split; [done|]. split; [by constructor|]. split; [by constructor|done].
Qed.

Lemma csvRows_header P schema header rest :
  loadDataFromFile P (Some (CSVFields header :: rest)) schema =
    (builders <- makeBuilders schema ;;
     builders' <- csvRows P schema 2 (Z.of_nat (length header)) rest builders ;;
     buildRecord schema builders').
Proof. reflexivity. Qed.

(** X1. A batch that the CSV loader returns holds the data rows of the file
    cell by cell: the file is a header and data rows of exactly as many
    fields as the schema, the row count is the number of data rows, every
    column has that many slots, and the slot at row [k] of column [i] is
    what cell [i] of data row [k] parses to for field [i]: null for an empty
    cell of a nullable field, the text itself for a String field, the parsed
    number or instant otherwise. *)
Theorem csv_load_cells (P : Platform) (f : list CSVLine) (schema : Schema)
    (r : ArrowRecord) :
  loadDataFromFile P (Some f) schema = Ok r ->
  exists header rows,
    f = CSVFields header :: map CSVFields rows /\
    Forall (fun row => length row = length (Fields schema)) rows /\
    rec_rows r = Z.of_nat (length rows) /\
    forall i field, Fields schema !! i = Some field ->
      exists col,
        rec_columns r !! i = Some col /\
        Len col = length rows /\
        forall k row val, rows !! k = Some row -> row !! i = Some val ->
          exists v, Data col !! k = Some v /\ csvSlot P field val v.
Proof.
  intros H. destruct f as [|[header|] rest].
  { unfold loadDataFromFile in H. by destruct (makeBuilders schema). }
  2:{ unfold loadDataFromFile in H. by destruct (makeBuilders schema). }
  rewrite csvRows_header in H.
  apply bind_Ok in H as (bs & Hbs & H).
  apply bind_Ok in H as (bs' & Hbs' & H).
  destruct (makeBuilders_good _ _ Hbs) as [Hgood Hempty].
  pose proof (csvRows_spec P schema rest 2 (Z.of_nat (length header)) bs Hgood) as Hspec.
  rewrite Hbs' in Hspec. destruct Hspec as (rows & vss & -> & Hrows & Hslots & ->).
  exists header, rows. split; [done|]. split; [done|].
  pose proof (csvSlots_length _ _ _ _ _ Hgood Hrows Hslots) as Hlen.
  assert (Hne : Fields schema <> []).
  { intros Hnil. unfold buildRecord in H. rewrite Hnil in Hgood.
    inversion Hgood; subst. by rewrite pushRows_nil in H. }
  rewrite (buildRecord_pushRows _ _ _ Hgood Hempty Hlen Hne) in H.
  inversion H; subst; simpl.
  rewrite (Forall2_length_r _ _ _ Hslots). split; [done|].
  intros i field Hi.
  destruct (Forall2_lookup_l _ _ _ _ _ Hgood Hi) as (b & Hb & _).
  destruct (pushRows_lookup vss bs i b Hb Hlen) as (col & Hcol & Hl).
  rewrite (proj1 (Forall_lookup _ _) Hempty i b Hb) in Hl. simpl in Hl.
  exists (mkArray (b_type b) col).
  rewrite list_lookup_fmap, Hl. split; [done|].
  split.
  { unfold Len. simpl. rewrite (Forall2_length_r _ _ _ Hcol).
    by rewrite (Forall2_length_r _ _ _ Hslots). }
  intros k row val Hk Hval. simpl.
  destruct (Forall2_lookup_l _ _ _ _ _ Hslots Hk) as (vs & Hvs & Hrow).
  assert (Hz : zip (Fields schema) row !! i = Some (field, val)).
  { apply lookup_zip_with_Some. eauto. }
  destruct (Forall2_lookup_l _ _ _ _ _ Hrow Hz) as (v & Hv & Hslot).
  destruct (Forall2_lookup_l _ _ _ _ _ Hcol Hvs) as (v' & Hv' & Hvi).
  exists v. split; [congruence|done].
Qed.

Lemma csv_load_cells_witness :
  loadDataFromFile examplePlatform
      (Some [CSVFields ["id"; "age"]; CSVFields ["1"; ""]; CSVFields ["-2"; "+30"]]%string)
      (idAgeSchema true)
    = Ok (batchOf [1; -2]%Z [None; Some 30%Z]) /\
  exists header rows,
    [CSVFields ["id"; "age"]; CSVFields ["1"; ""]; CSVFields ["-2"; "+30"]]%string
      = CSVFields header :: map CSVFields rows /\
    Forall (fun row => length row = length (Fields (idAgeSchema true))) rows /\
    rec_rows (batchOf [1; -2]%Z [None; Some 30%Z]) = Z.of_nat (length rows) /\
    forall i field, Fields (idAgeSchema true) !! i = Some field ->
      exists col,
        rec_columns (batchOf [1; -2]%Z [None; Some 30%Z]) !! i = Some col /\
        Len col = length rows /\
        forall k row val, rows !! k = Some row -> row !! i = Some val ->
          exists v, Data col !! k = Some v /\ csvSlot examplePlatform field val v.
Proof.
  assert (H : loadDataFromFile examplePlatform
      (Some [CSVFields ["id"; "age"]; CSVFields ["1"; ""]; CSVFields ["-2"; "+30"]]%string)
      (idAgeSchema true) = Ok (batchOf [1; -2]%Z [None; Some 30%Z]))
    by (vm_compute; reflexivity).
  split; [exact H|].
  exact (csv_load_cells examplePlatform _ _ _ H).
Defined.

Lemma readRecords_no_panic f p : readRecords f <> Panic p.
Proof.
  unfold readRecords.
  destruct (Decode asMaps (unread f)) as [[err|records] rest]; [|done].
  destruct (SeekStart _) as [f'|]; [|done].
  rewrite decodeRows_mapM. destruct (mapM asMap _); [|done].
  by destruct (js_malformed_tail _).
Qed.

(** X2. For a schema with at least one field, the CSV loader and the JSON
    loader never panic: every run returns a batch or an error. (For the
    empty schema both index the first of no columns.) *)
Theorem loaders_never_panic (P : Platform) (schema : Schema) :
  Fields schema <> [] ->
  forall p,
    (forall file, loadDataFromFile P file schema <> Panic p) /\
    (forall file, loadDataFromJSON P file schema <> Panic p).
Proof.
  intros Hne p. split; intros file.
  - unfold loadDataFromFile.
    destruct (makeBuilders schema) as [bs|e|p'] eqn:Hbs; simpl; [|done|].
    2:{ by destruct (makeBuilders_no_panic schema p'). }
    destruct file as [f|]; [|done].
    destruct f as [|[header|] rest]; try done.
    change (Read (NewReader (CSVFields header :: rest)))
      with (ReadRecord header, mkReader (Z.of_nat (length header)) rest).
    simpl.
    destruct (makeBuilders_good _ _ Hbs) as [Hgood Hempty].
    pose proof (csvRows_spec P schema rest 2 (Z.of_nat (length header)) bs Hgood) as Hspec.
    destruct (csvRows P schema 2 (Z.of_nat (length header)) rest bs) as [bs'| |];
      simpl; try done.
    destruct Hspec as (rows & vss & -> & Hrows & Hslots & ->).
    pose proof (csvSlots_length _ _ _ _ _ Hgood Hrows Hslots) as Hlen.
    by rewrite (buildRecord_pushRows _ _ _ Hgood Hempty Hlen Hne).
  - unfold loadDataFromJSON.
    destruct (makeBuilders schema) as [bs|e|p'] eqn:Hbs; simpl; [|done|].
    2:{ by destruct (makeBuilders_no_panic schema p'). }
    destruct file as [[text canSeek]|]; [|done].
    destruct (readRecords (Open text canSeek)) as [records|e|p'] eqn:Hread; simpl;
      [|done|by destruct (readRecords_no_panic _ _ Hread)].
    destruct (makeBuilders_good _ _ Hbs) as [Hgood Hempty].
    pose proof (jsonRecords_spec P schema records 0 bs Hgood) as Hspec.
    unfold jsonRecords, forRange.
    destruct (rangeFrom (jsonRecord P schema) 0 records bs) as [bs'| |]; simpl; try done.
    destruct Hspec as (vss & Hvss & ->).
    assert (Hlen : Forall (fun vs => length vs = length bs) vss).
    { apply Forall_lookup. intros k vs Hk.
      destruct (Forall2_lookup_r _ _ _ _ _ Hvss Hk) as (rec & _ & Hrow).
      rewrite (Forall2_length_r _ _ _ Hrow). by eapply Forall2_length. }
    by rewrite (buildRecord_pushRows _ _ _ Hgood Hempty Hlen Hne).
Qed.

Lemma loaders_never_panic_witness :
  Fields (idAgeSchema true) <> [] /\
  ((forall file,
      loadDataFromFile examplePlatform file (idAgeSchema true) <> Panic IndexOutOfRange) /\
   (forall file,
      loadDataFromJSON examplePlatform file (idAgeSchema true) <> Panic IndexOutOfRange)).
Proof.
  assert (Hne : Fields (idAgeSchema true) <> []) by done.
  split; [exact Hne|].
  exact (loaders_never_panic examplePlatform (idAgeSchema true) Hne IndexOutOfRange).
Defined.

(** X3. With the empty schema neither the CSV loader nor the JSON loader
    returns a batch, whatever the file holds: when every row is accepted the
    run panics at [arrays[0]] (lines 413 and 591). In particular a CSV file
    of a header alone and a JSON file of no object panic. *)
Theorem empty_schema_never_loads (P : Platform) :
  (forall file r, loadDataFromFile P file (mkSchema []) <> Ok r) /\
  (forall file r, loadDataFromJSON P file (mkSchema []) <> Ok r) /\
  (forall header,
     loadDataFromFile P (Some [CSVFields header]) (mkSchema []) = Panic IndexOutOfRange) /\
  (forall canSeek,
     loadDataFromJSON P (Some (mkJSONText [JArray []] false, canSeek)) (mkSchema [])
       = Panic IndexOutOfRange).
Proof.
  split; [|split; [|split]].
  - intros file r H. unfold loadDataFromFile in H. simpl in H.
    destruct file as [f|]; [|done].
    destruct (Read (NewReader f)) as [[| |row] rdr']; try done.
    apply bind_Ok in H as (bs' & Hbs' & H).
    pose proof (csvRows_spec P (mkSchema []) (pending rdr') 2 (FieldsPerRecord rdr') []
                  ltac:(constructor)) as Hspec.
    rewrite Hbs' in Hspec. destruct Hspec as (rows & vss & _ & _ & _ & ->).
    by rewrite pushRows_nil in H.
  - intros file r H. unfold loadDataFromJSON in H. simpl in H.
    destruct file as [[text canSeek]|]; [|done].
    apply bind_Ok in H as (records & _ & H).
    apply bind_Ok in H as (bs' & Hbs' & H).
    pose proof (jsonRecords_spec P (mkSchema []) records 0 [] ltac:(constructor)) as Hspec.
    unfold jsonRecords, forRange in Hbs'. rewrite Hbs' in Hspec.
    destruct Hspec as (vss & _ & ->). by rewrite pushRows_nil in H.
  - reflexivity.
  - reflexivity.
Qed.

(** X4. The CSV loader matches columns to fields by position: of the header
    only the number of fields matters (the reader holds every data row to
    it), its names are never compared with the schema. Two files that differ
    only in headers of the same length load alike. *)
Theorem csv_header_names_ignored (P : Platform) (schema : Schema)
    (header1 header2 : list string) (rest : list CSVLine) :
  length header1 = length header2 ->
  loadDataFromFile P (Some (CSVFields header1 :: rest)) schema
    = loadDataFromFile P (Some (CSVFields header2 :: rest)) schema.
Proof. intros Hlen. by rewrite !csvRows_header, Hlen. Qed.

Lemma csv_header_names_ignored_witness :
  length ["id"; "age"]%string = length ["age"; "id"]%string /\
  loadDataFromFile examplePlatform
      (Some [CSVFields ["id"; "age"]; CSVFields ["1"; "20"]]%string) (idAgeSchema false)
    = loadDataFromFile examplePlatform
        (Some [CSVFields ["age"; "id"]; CSVFields ["1"; "20"]]%string) (idAgeSchema false).
Proof.
  split; [reflexivity|].
  exact (csv_header_names_ignored examplePlatform (idAgeSchema false)
           ["id"; "age"]%string ["age"; "id"]%string [CSVFields ["1"; "20"]%string]
           eq_refl).
Defined.

(** ** The sample generator *)

Lemma sampleColumn_type f :
  TypeEqual (Type_ f) (DataType_ (sampleColumn f)) = sampleType (Type_ f).
Proof.
  unfold TypeEqual, sampleColumn.
  destruct (Type_ f); simpl; by try (apply bool_decide_eq_false_2).
Qed.

Lemma sampleColumn_slots f :
  Len (sampleColumn f) = 5 /\ Forall is_Some (Data (sampleColumn f)).
Proof.
  unfold sampleColumn, Len.
  destruct (Type_ f); simpl; (split; [reflexivity|]); repeat constructor; eauto.
Qed.

Lemma validate_sample_columns fields :
  validate_columns fields (map sampleColumn fields) 5 =
    if forallb (fun f => sampleType (Type_ f)) fields then None
    else Some "column type mismatch"%string.
Proof.
  induction fields as [|f fields IH]; simpl; [done|].
  rewrite (proj1 (sampleColumn_slots f)). simpl.
  rewrite sampleColumn_type. destruct (sampleType (Type_ f)); simpl; [exact IH|done].
Qed.

(** X5. [generateSampleData] returns a batch exactly when every field of the
    schema is Int64, Int32, String or Float64; then the batch has five rows
    and no null, also in nullable fields. A field of any other type gets a
    String column, which [NewRecord] refuses: the call panics. *)
Theorem generateSampleData_supported (schema : Schema) :
  generateSampleData schema =
    (if forallb (fun f => sampleType (Type_ f)) (Fields schema)
     then Ok (mkRecord schema (map sampleColumn (Fields schema)) 5)
     else Panic (RecordInvalid "column type mismatch")) /\
  forall f, Len (sampleColumn f) = 5 /\ Forall is_Some (Data (sampleColumn f)).
Proof.
  split; [|apply sampleColumn_slots].
  unfold generateSampleData, NewRecord, validate. simpl.
  rewrite length_map, Nat.eqb_refl. simpl.
  rewrite validate_sample_columns. by destruct (forallb _ _).
Qed.

(** ** Concatenation: one batch, and the Parquet loader *)

Lemma appended_single schema r :
  validBatch schema r ->
  appended schema [r] = mkRecord schema (rec_columns r) (rec_rows r).
Proof.
  intros [Hcols Hrows]. unfold appended. simpl. f_equal; [|lia].
  apply list_eq. intros i. rewrite list_lookup_imap.
  destruct (Fields schema !! i) as [f|] eqn:Hi; simpl.
  - destruct (Forall2_lookup_l _ _ _ _ _ Hcols Hi) as (a & Ha & Hty & _).
    unfold colData. rewrite Ha, app_nil_r, <- Hty. by destruct a.
  - symmetry. apply lookup_ge_None. apply lookup_ge_None in Hi.
    by rewrite <- (Forall2_length _ _ _ Hcols).
Qed.

(** X6. Concatenating a single batch of the schema changes nothing: the
    result has the columns and the row count of the batch. *)
Theorem concatRecords_single (schema : Schema) (r : ArrowRecord) :
  validBatch schema r -> (rec_rows r < 2 ^ 63)%Z ->
  concatRecords schema [r] = Ok (Some (mkRecord schema (rec_columns r) (rec_rows r))).
Proof.
  intros Hvalid Hrows. rewrite <- appended_single by done.
  apply concatRecords_appended; [done|by constructor|simpl; lia].
Qed.

Lemma concatRecords_single_witness :
  validBatch (idAgeSchema true) batchA /\ (rec_rows batchA < 2 ^ 63)%Z /\
  concatRecords (idAgeSchema true) [batchA] = Ok (Some batchA).
Proof.
  assert (Hvalid : validBatch (idAgeSchema true) batchA) by solve_validBatch.
  assert (Hrows : (rec_rows batchA < 2 ^ 63)%Z) by (vm_compute; reflexivity).
  split; [exact Hvalid|]. split; [exact Hrows|].
  exact (concatRecords_single (idAgeSchema true) batchA Hvalid Hrows).
Defined.

Lemma collectBatches_mapR P schema batches : forall allBatches,
  collectBatches P schema batches allBatches =
    (cs <- mapR (coerceIfNeeded P schema) batches ;; Ok (allBatches ++ cs)).
Proof.
  induction batches as [|rec rest IH]; intros allBatches; simpl.
  - by rewrite app_nil_r.
  - unfold coerceIfNeeded at 1.
    destruct (Schema_Equal (rec_schema rec) schema); simpl.
    + rewrite IH. destruct (mapR _ rest); simpl; try done.
      by rewrite <- app_assoc.
    + destruct (CoerceRecord P schema rec) as [coerced| |]; simpl; try done.
      rewrite IH. destruct (mapR _ rest); simpl; try done.
      by rewrite <- app_assoc.
Qed.



(** X8. An error of [concatRecords] is not passed on: when the concatenation
    of the kept batches fails, the Parquet loader returns no batch and no
    error (line 720 binds [err], line 724 returns [nil]). *)
Theorem parquet_loader_drops_concat_error (P : Platform) (schema : Schema)
    (batches kept : list ArrowRecord) (e : Error) :
  mapR (coerceIfNeeded P schema) batches = Ok kept ->
  concatRecords schema kept = Err e ->
  loadDataFromORCToParquet P (PqBatches batches) schema = Ok None.
Proof.
  intros Hkept Hconcat. unfold loadDataFromORCToParquet.
  rewrite collectBatches_mapR, Hkept. cbn [bind app].
  destruct (Nat.eqb_spec (length kept) 0) as [Hz|_].
  { destruct kept; [done|simpl in Hz; lia]. }
  by rewrite Hconcat.
Qed.

Lemma parquet_loader_drops_concat_error_witness :
  concatRecords (idAgeSchema true) [batchA; batchMistyped]
    = Err (ErrConcatenate ConcatTypeMismatch) /\
  loadDataFromORCToParquet examplePlatform (PqBatches [batchA; batchMistyped])
      (idAgeSchema true) = Ok None.
Proof.
  assert (Hc : concatRecords (idAgeSchema true) [batchA; batchMistyped]
               = Err (ErrConcatenate ConcatTypeMismatch)) by (vm_compute; reflexivity).
  split; [exact Hc|].
  apply (parquet_loader_drops_concat_error examplePlatform (idAgeSchema true)
           [batchA; batchMistyped] [batchA; batchMistyped] _ eq_refl Hc).
Defined.

(** ** The two JSON layouts *)

Lemma mapM_asMap_objects (objs : list (gmap string JValue)) :
  mapM asMap (map JObject objs) = Some objs.
Proof.
  induction objs as [|m objs IH]; [done|].
  simpl. rewrite IH. done.
Qed.

Lemma readRecords_lines objs :
  readRecords (Open (mkJSONText (map JObject objs) false) true) = Ok objs.
Proof.
  unfold readRecords, Open, SeekStart. simpl.
  destruct objs as [|m objs]; [done|]. simpl.
  rewrite decodeRows_mapM, mapM_asMap_objects. done.
Qed.

Lemma readRecords_first_value v rest tail canSeek records :
  asMaps v = Some records ->
  readRecords (Open (mkJSONText (v :: rest) tail) canSeek) = Ok records.
Proof. intros Hv. unfold readRecords, Open. simpl. by rewrite Hv. Qed.

(** X9. The same objects load alike from both layouts: a file of the objects
    one after the other (read by the second stage, which needs a file that
    can seek) and a file of one array of them give the same result, batch
    or error. *)
Theorem json_layouts_agree (P : Platform) (schema : Schema)
    (objs : list (gmap string JValue)) (canSeek : bool) :
  loadDataFromJSON P (Some (mkJSONText (map JObject objs) false, true)) schema
    = loadDataFromJSON P (Some (mkJSONText [JArray (map JObject objs)] false, canSeek))
        schema.
Proof.
  unfold loadDataFromJSON.
  rewrite readRecords_lines.
  rewrite (readRecords_first_value _ _ _ _ objs); [done|].
  simpl. apply mapM_asMap_objects.
Qed.

(** X10. When the first top-level value of the file is an array of objects
    (or [null]), the JSON loader reads that value only: values and malformed
    text after it are ignored, and the file need not seek. When the first
    value is an object and the file cannot seek, the load fails at the seek,
    for every schema the loader has builders for. *)
Theorem json_first_value_decides (P : Platform) (schema : Schema) (v : JValue)
    (rest : list JValue) (tail canSeek : bool) :
  (is_Some (asMaps v) ->
   loadDataFromJSON P (Some (mkJSONText (v :: rest) tail, canSeek)) schema
     = loadDataFromJSON P (Some (mkJSONText [v] false, true)) schema) /\
  (forall m builders,
     v = JObject m -> makeBuilders schema = Ok builders ->
     loadDataFromJSON P (Some (mkJSONText (v :: rest) tail, false)) schema
       = Err (ErrSeekFailed DecUnmarshalType)).
Proof.
  split.
  - intros [records Hv]. unfold loadDataFromJSON.
    by rewrite !(readRecords_first_value _ _ _ _ records Hv).
  - intros m builders -> Hb. unfold loadDataFromJSON. rewrite Hb. reflexivity.
Qed.

Lemma json_first_value_decides_witness :
  loadDataFromJSON examplePlatform
      (Some (mkJSONText [JArray [JObject {[ "id"%string := JNumber 5%float ]}];
                         JString "ignored"; JNumber 7%float] true, false))
      (idAgeSchema true)
    = loadDataFromJSON examplePlatform
        (Some (mkJSONText [JArray [JObject {[ "id"%string := JNumber 5%float ]}]] false,
               true))
        (idAgeSchema true) /\
  loadDataFromJSON examplePlatform
      (Some (mkJSONText [JObject {[ "id"%string := JNumber 5%float ]}] false, false))
      (idAgeSchema true)
    = Err (ErrSeekFailed DecUnmarshalType).
Proof.
  split.
  - apply (proj1 (json_first_value_decides examplePlatform (idAgeSchema true)
              (JArray [JObject {[ "id"%string := JNumber 5%float ]}])
              [JString "ignored"; JNumber 7%float] true false)).
    vm_compute. eauto.
  - apply (proj2 (json_first_value_decides examplePlatform (idAgeSchema true)
              (JObject {[ "id"%string := JNumber 5%float ]}) [] false false)
             {[ "id"%string := JNumber 5%float ]}
             [NewInt64Builder; NewInt32Builder]); reflexivity.
Defined.

(** ** The blob loader: what it reads *)

Lemma mapR_ext {A B} (f g : A -> res B) (l : list A) :
  (forall x, x ∈ l -> f x = g x) -> mapR f l = mapR g l.
Proof.
  induction l as [|x l IH]; intros H; simpl; [done|].
  rewrite (H x (list_elem_of_here _ _)), IH; [done|].
  intros y Hy. apply H. by apply list_elem_of_further.
Qed.

(** The first element on which a loop fails. *)
Lemma mapR_Err {A B} (f : A -> res B) (l : list A) (e : Error) :
  mapR f l = Err e <->
  exists pre x suf, l = pre ++ x :: suf /\ Forall (fun y => exists v, f y = Ok v) pre /\
                    f x = Err e.
Proof.
  induction l as [|x l IH]; simpl.
  - split; [done|]. intros (pre & y & suf & H & _). by destruct pre.
  - split.
    + destruct (f x) as [v|e'|p] eqn:Hx; simpl; [|intros [= ->]|done].
      * destruct (mapR f l) as [vs|e'|p] eqn:Hl; simpl; [done| |done].
        intros [= ->]. destruct (proj1 IH eq_refl) as (pre & y & suf & -> & Hpre & Hy).
        exists (x :: pre), y, suf. split; [done|]. split; [|done].
        constructor; eauto.
      * exists [], x, l. split; [done|]. split; [constructor|done].
    + intros (pre & y & suf & Hl & Hpre & Hy).
      destruct pre as [|x' pre]; simpl in Hl; inversion Hl; subst.
      * by rewrite Hy.
      * inversion Hpre as [|? ? [v Hv] Hpre']; subst. rewrite Hv. simpl.
        rewrite (proj2 IH); [done|]. exists pre, y, suf. eauto.
Qed.

(** X11. The blob loader looks at the mapping only under the names of the
    schema's fields, and at the files only under the paths mapped to those
    names: entries for other names, and the files they point to, are never
    read. Two runs that agree on these return the same result. *)
Theorem blob_loader_reads_schema_names_only
    (fs1 fs2 : gmap string (list Byte.byte)) (blobs1 blobs2 : gmap string string)
    (schema : Schema) :
  (forall f, f ∈ Fields schema -> blobs1 !! Name f = blobs2 !! Name f) ->
  (forall f path, f ∈ Fields schema -> blobs1 !! Name f = Some path ->
     fs1 !! path = fs2 !! path) ->
  loadBlobRecord fs1 blobs1 schema = loadBlobRecord fs2 blobs2 schema.
Proof.
  intros Hblobs Hfs. rewrite !loadBlobRecord_slots.
  rewrite (mapR_ext (blobValue fs1 blobs1) (blobValue fs2 blobs2)); [done|].
  intros f Hf. unfold blobValue. rewrite <- (Hblobs f Hf).
  destruct (blobs1 !! Name f) as [path|] eqn:Hp; [|done].
  by rewrite (Hfs f path Hf Hp).
Qed.

Lemma blob_loader_reads_schema_names_only_witness :
  loadBlobRecord {[ "/tmp/a.bin"%string := [Byte.x4c] ]}
      {[ "photo"%string := "/tmp/a.bin"%string; "other"%string := "/nowhere"%string ]}
      photoSchema
    = loadBlobRecord {[ "/tmp/a.bin"%string := [Byte.x4c];
                        "/nowhere"%string := [Byte.x00] ]}
        {[ "photo"%string := "/tmp/a.bin"%string ]} photoSchema.
Proof.
  apply blob_loader_reads_schema_names_only.
  - intros f Hf. apply list_elem_of_In in Hf. simpl in Hf.
    destruct Hf as [<-|[<-|[]]]; vm_compute; reflexivity.
  - intros f path Hf Hp. apply list_elem_of_In in Hf. simpl in Hf.
    destruct Hf as [<-|[<-|[]]]; vm_compute in Hp; inversion Hp; subst;
      vm_compute; reflexivity.
Defined.

(** X12. The blob loader returns an error exactly when some field of the
    schema is mapped to a file that cannot be read; the error names the
    first such field in the order of the schema. *)
Theorem blob_loader_error (fs : gmap string (list Byte.byte))
    (blobs : gmap string string) (schema : Schema) (e : Error) :
  loadBlobRecord fs blobs schema = Err e <->
  exists pre f suf path,
    Fields schema = pre ++ f :: suf /\
    Forall (fun g => forall p, blobs !! Name g = Some p -> is_Some (fs !! p)) pre /\
    blobs !! Name f = Some path /\ fs !! path = None /\
    e = ErrReadBlob (Name f).
Proof.
  rewrite loadBlobRecord_slots.
  assert (Hnew : forall vs, NewRecord (E := Error) schema
            (map NewArray (pushAll (map blobBuilder (Fields schema)) vs)) 1 <> Err e).
  { intros vs. unfold NewRecord. simpl. by destruct (validate _ _ _). }
  split.
  - intros H.
    destruct (mapR (blobValue fs blobs) (Fields schema)) as [vs|e'|p] eqn:Hm;
      simpl in H; [by destruct (Hnew vs)| |done].
    inversion H; subst e'.
    apply mapR_Err in Hm as (pre & f & suf & Hl & Hpre & Hf).
    unfold blobValue in Hf.
    destruct (blobs !! Name f) as [path|] eqn:Hp; [|done].
    destruct (fs !! path) eqn:Hpath; [done|]. inversion Hf; subst.
    exists pre, f, suf, path. repeat split; try done.
    eapply Forall_impl; [exact Hpre|].
    intros g [v Hv] p Hgp. unfold blobValue in Hv. rewrite Hgp in Hv.
    destruct (fs !! p); [eauto|done].
  - intros (pre & f & suf & path & Hl & Hpre & Hp & Hpath & ->).
    assert (Hm : mapR (blobValue fs blobs) (Fields schema) = Err (ErrReadBlob (Name f))).
    { apply mapR_Err. exists pre, f, suf. split; [done|]. split.
      - eapply Forall_impl; [exact Hpre|].
        intros g Hg. unfold blobValue.
        destruct (blobs !! Name g) as [p|] eqn:Hgp; [|eauto].
        destruct (Hg p Hgp) as [data ->]. eauto.
      - unfold blobValue. by rewrite Hp, Hpath. }
    by rewrite Hm.
Qed.

(** * The command *)

(** ** Properties of parseBlobArgs *)

(** [cutEq k = None] says that [k] holds no [=]. *)
Lemma cutEq_None_app k rest :
  cutEq k = None -> cutEq (k ++ "=" ++ rest) = Some (k, rest).
Proof.
  intros Hk. induction k as [|d k IH]; simpl in *; [done|].
  destruct (Ascii.eqb d "="); [done|].
  destruct (cutEq k) as [[k' v']|]; [done|]. by rewrite IH.
Qed.

Lemma cutEq_Some a k v :
  cutEq a = Some (k, v) -> a = (k ++ "=" ++ v)%string /\ cutEq k = None.
Proof.
  revert k v. induction a as [|c a IH]; intros k v H; simpl in H; [done|].
  destruct (Ascii.eqb_spec c "=") as [->|Hc].
  - inversion H; subst. done.
  - destruct (cutEq a) as [[k' v']|] eqn:Ha; [|done]. inversion H; subst.
    destruct (IH k' v eq_refl) as [-> Hk']. split; [done|].
    simpl. destruct (Ascii.eqb_spec c "="); [done|]. by rewrite Hk'.
Qed.

Lemma parseBlobArgs_snoc args a :
  parseBlobArgs (args ++ [a]) =
    match cutEq a with
    | Some (k, v) => <[k := v]> (parseBlobArgs args)
    | None => parseBlobArgs args
    end.
Proof.
  unfold parseBlobArgs. rewrite fold_left_app. simpl. unfold SplitN2.
  by destruct (cutEq a) as [[k v]|].
Qed.

(** X13. [parseBlobArgs] keeps the arguments of the form [field=file], cut
    at the first [=]: every entry of the map comes from such an argument and
    its key holds no [=]; an argument without [=] adds nothing; and of two
    arguments for the same field the later one wins. *)
Theorem parseBlobArgs_entries (args : list string) :
  (forall k v, parseBlobArgs args !! k = Some v ->
     cutEq k = None /\ (k ++ "=" ++ v)%string ∈ args) /\
  (forall a, cutEq a = None -> parseBlobArgs (args ++ [a]) = parseBlobArgs args) /\
  (forall k v, cutEq k = None ->
     parseBlobArgs (args ++ [(k ++ "=" ++ v)%string]) !! k = Some v /\
     forall k', k' <> k ->
       parseBlobArgs (args ++ [(k ++ "=" ++ v)%string]) !! k' = parseBlobArgs args !! k').
Proof.
  split; [|split].
  - induction args as [|a args IH] using rev_ind; intros k v H.
    + done.
    + rewrite parseBlobArgs_snoc in H.
      destruct (cutEq a) as [[k0 v0]|] eqn:Ha.
      * destruct (decide (k0 = k)) as [->|Hne].
        -- rewrite lookup_insert_eq in H. inversion H; subst.
           destruct (cutEq_Some _ _ _ Ha) as [-> Hk].
           split; [done|]. apply elem_of_app. right. apply list_elem_of_here.
        -- rewrite lookup_insert_ne in H by done.
           destruct (IH k v H) as [Hk Hin]. split; [done|].
           apply elem_of_app. by left.
      * destruct (IH k v H) as [Hk Hin]. split; [done|].
        apply elem_of_app. by left.
  - intros a Ha. by rewrite parseBlobArgs_snoc, Ha.
  - intros k v Hk. rewrite parseBlobArgs_snoc.
    rewrite (cutEq_None_app k v Hk).
    split; [apply lookup_insert_eq|].
    intros k' Hne. by apply lookup_insert_ne.
Qed.

Lemma parseBlobArgs_entries_witness :
  parseBlobArgs ["photo=/tmp/a.bin"; "nofile"; "photo=/tmp/b=c.bin"]%string
    = {[ "photo"%string := "/tmp/b=c.bin"%string ]} /\
  cutEq "photo" = None /\
  ("photo" ++ "=" ++ "/tmp/b=c.bin")%string
    ∈ ["photo=/tmp/a.bin"; "nofile"; "photo=/tmp/b=c.bin"]%string.
Proof.
  assert (H : parseBlobArgs ["photo=/tmp/a.bin"; "nofile"; "photo=/tmp/b=c.bin"]%string
              = {[ "photo"%string := "/tmp/b=c.bin"%string ]})
    by (vm_compute; reflexivity).
  split; [exact H|].
  apply (proj1 (parseBlobArgs_entries
                  ["photo=/tmp/a.bin"; "nofile"; "photo=/tmp/b=c.bin"]%string)).
  rewrite H. vm_compute. reflexivity.
Defined.

(** ** Properties of TrimSuffix *)

Lemma string_length_app (s t : string) :
  String.length (s ++ t) = String.length s + String.length t.
Proof. induction s as [|c s IH]; simpl; [done|]. by rewrite IH. Qed.

Lemma substring_all (s : string) : substring 0 (String.length s) s = s.
Proof. induction s as [|c s IH]; simpl; [done|]. by rewrite IH. Qed.

Lemma substring_prefix (s t : string) : substring 0 (String.length s) (s ++ t) = s.
Proof.
  induction s as [|c s IH]; simpl.
  - by destruct t.
  - by rewrite IH.
Qed.

Lemma substring_suffix (s t : string) :
  substring (String.length s) (String.length t) (s ++ t) = t.
Proof. induction s as [|c s IH]; simpl; [apply substring_all|exact IH]. Qed.

Lemma substring_split (n : nat) : forall s : string,
  n <= String.length s ->
  s = (substring 0 n s ++ substring n (String.length s - n) s)%string.
Proof.
  induction n as [|n IH]; intros s Hn.
  - rewrite Nat.sub_0_r, substring_all. by destruct s.
  - destruct s as [|c s]; simpl in *; [lia|].
    change (String c s
            = String c (substring 0 n s ++ substring n (String.length s - n) s)%string).
    f_equal. apply IH. lia.
Qed.

(** [HasSuffix s suffix] holds exactly when [s] ends in [suffix], and then
    [TrimSuffix] removes that ending. *)
Lemma HasSuffix_iff s suffix :
  HasSuffix s suffix = true <-> exists stem, s = (stem ++ suffix)%string.
Proof.
  unfold HasSuffix. split.
  - intros H. apply andb_true_iff in H as [Hlen Heq].
    apply Nat.leb_le in Hlen. apply String.eqb_eq in Heq.
    exists (substring 0 (String.length s - String.length suffix) s).
    pose proof (substring_split (String.length s - String.length suffix) s
                  ltac:(lia)) as Hs.
    replace (String.length s - (String.length s - String.length suffix))
      with (String.length suffix) in Hs by lia.
    rewrite Heq in Hs. exact Hs.
  - intros [stem ->]. rewrite string_length_app.
    replace (String.length stem + String.length suffix - String.length suffix)
      with (String.length stem) by lia.
    rewrite substring_suffix, String.eqb_refl.
    apply andb_true_iff. split; [apply Nat.leb_le; lia|done].
Qed.

Lemma TrimSuffix_app stem suffix : TrimSuffix (stem ++ suffix) suffix = stem.
Proof.
  unfold TrimSuffix. rewrite (proj2 (HasSuffix_iff _ _)) by eauto.
  rewrite string_length_app.
  replace (String.length stem + String.length suffix - String.length suffix)
    with (String.length stem) by lia.
  apply substring_prefix.
Qed.

(** ** Properties of the choice of the source *)

Lemma loadSource_events P W flags schema :
  snd (loadSource P W flags schema) = [] \/
  exists a b, snd (loadSource P W flags schema) = [EvConvert a b].
Proof.
  unfold loadSource.
  repeat match goal with
  | |- context [if ?c then _ else _] => destruct c; simpl; eauto
  end.
Qed.

Lemma parseBlobArgs_no_entry args :
  Forall (fun a => cutEq a = None) args -> parseBlobArgs args = ∅.
Proof.
  induction args as [|a args IH] using rev_ind; intros H; [done|].
  apply Forall_app in H as [Hargs Ha]. inversion Ha; subst.
  rewrite parseBlobArgs_snoc. by rewrite H1, IH.
Qed.

(** X14. With [--format orc] (and no [--sample]) the input is converted to a
    Parquet file named after it, and that file is the one loaded: an input
    [stem.orc] goes to [stem.parquet], any other input name gets [.parquet]
    appended. When the conversion fails nothing is loaded. *)
Theorem orc_source (P : Platform) (W : World) (flags : Flags) (schema : Schema) :
  flag_sample flags = false -> flag_format flags = "orc"%string ->
  flag_input flags <> ""%string ->
  exists out,
    (forall stem, flag_input flags = (stem ++ ".orc")%string ->
       out = (stem ++ ".parquet")%string) /\
    ((forall stem, flag_input flags <> (stem ++ ".orc")%string) ->
       out = (flag_input flags ++ ".parquet")%string) /\
    loadSource P W flags schema =
      (if orc2parquet W (flag_input flags) out
       then wrapLoad ErrLoadFile id
              (loadDataFromORCToParquet P (parquet_files W out) schema)
       else Err ErrConversion,
       [EvConvert (flag_input flags) out]).
Proof.
  intros Hs Hf Hin.
  exists (TrimSuffix (flag_input flags) ".orc" ++ ".parquet")%string.
  split; [|split].
  - intros stem ->. by rewrite TrimSuffix_app.
  - intros Hno. unfold TrimSuffix.
    destruct (HasSuffix (flag_input flags) ".orc") eqn:Hsuf; [|done].
    apply HasSuffix_iff in Hsuf as [stem Hstem]. by destruct (Hno stem).
  - unfold loadSource. rewrite Hs, Hf. simpl.
    rewrite andb_false_r. simpl.
    destruct (String.eqb_spec (flag_input flags) ""); [done|]. simpl.
    by destruct (orc2parquet W _ _).
Qed.

Lemma orc_source_witness :
  exists out,
    out = "data/day1.parquet"%string /\
    loadSource examplePlatform
      (mkWorld true true true None (fun _ _ => None) (fun _ _ _ => false)
         (fun _ => None) (fun _ => None) ∅ (fun _ _ => false) (fun _ => PqOpenFails))
      (mkFlags "data/day1.orc" "pw" false "orc" []) (idAgeSchema true)
    = (Err ErrConversion, [EvConvert "data/day1.orc" out]).
Proof.
  destruct (orc_source examplePlatform
      (mkWorld true true true None (fun _ _ => None) (fun _ _ _ => false)
         (fun _ => None) (fun _ => None) ∅ (fun _ _ => false) (fun _ => PqOpenFails))
      (mkFlags "data/day1.orc" "pw" false "orc" []) (idAgeSchema true)
      eq_refl eq_refl ltac:(done)) as (out & Hstem & _ & Hload).
  exists out. split; [exact (Hstem "data/day1"%string eq_refl)|exact Hload].
Defined.

(** X15. Without [--sample], no loader is chosen and the command fails with
    "either --input or --sample must be specified" when the format is none
    of blob, csv, json and orc; when the format is blob and no [--blob]
    argument holds a [=], even if an input file is given; and when the format
    is csv, json or orc and no input file is given. *)
Theorem no_source_chosen (P : Platform) (W : World) (flags : Flags) (schema : Schema) :
  flag_sample flags = false ->
  flag_format flags ∉ ["blob"; "csv"; "json"; "orc"]%string \/
  (flag_format flags = "blob"%string /\
   Forall (fun a => cutEq a = None) (flag_blob flags)) \/
  (flag_format flags ∈ ["csv"; "json"; "orc"]%string /\ flag_input flags = ""%string) ->
  loadSource P W flags schema = (Err ErrNoSource, []).
Proof.
  intros Hs Hcase. unfold loadSource. rewrite Hs.
  destruct Hcase as [Hfmt|[[Hfmt Hblob]|[Hfmt Hin]]].
  - assert (Hne : forall s, s ∈ ["blob"; "csv"; "json"; "orc"]%string ->
                            String.eqb (flag_format flags) s = false).
    { intros s Hin. apply String.eqb_neq. intros Heq. by rewrite Heq in Hfmt. }
    rewrite !Hne by (repeat first [apply list_elem_of_here | apply list_elem_of_further]).
    by rewrite !andb_false_r.
  - rewrite (parseBlobArgs_no_entry _ Hblob), Hfmt. simpl.
    by rewrite !andb_false_r.
  - rewrite Hin. simpl.
    assert (Hb : String.eqb (flag_format flags) "blob" = false).
    { apply String.eqb_neq. intros Heq. rewrite Heq in Hfmt.
      apply list_elem_of_In in Hfmt. simpl in Hfmt.
      destruct Hfmt as [?|[?|[?|[]]]]; done. }
    by rewrite Hb, andb_false_r.
Qed.

Lemma no_source_chosen_witness :
  loadSource examplePlatform
    (mkWorld true true true None (fun _ _ => None) (fun _ _ _ => false)
       (fun _ => None) (fun _ => None) ∅ (fun _ _ => false) (fun _ => PqOpenFails))
    (mkFlags "in.csv" "pw" false "blob" ["photo"; "caption"]) (idAgeSchema true)
  = (Err ErrNoSource, []).
Proof.
  apply no_source_chosen; [reflexivity|].
  right; left. split; [reflexivity|]. repeat constructor.
Defined.

(** ** Properties of the command *)

Lemma wrapLoad_error {A B} (w : Error -> CmdError) (k : A -> B) (r : res A) e :
  (forall e', isSourceError (w e') = true) ->
  wrapLoad w k r = Err e -> isSourceError e = true.
Proof.
  intros Hw. destruct r; simpl; intros H; inversion H; subst. apply Hw.
Qed.

Lemma loadSource_errors P W flags schema e :
  fst (loadSource P W flags schema) = Err e -> isSourceError e = true.
Proof.
  unfold loadSource.
  repeat match goal with
  | |- context [if ?c then _ else _] => destruct c; simpl
  end;
  try (apply wrapLoad_error; done);
  intros H; inversion H; done.
Qed.

Ltac RunE_load P W filename flags :=
  match goal with
  | |- context [loadSource P W flags ?s] =>
      let Hev := fresh "Hev" in
      let Herr := fresh "Herr" in
      let Hload := fresh "Hload" in
      pose proof (loadSource_events P W flags s) as Hev;
      pose proof (loadSource_errors P W flags s) as Herr;
      destruct (loadSource P W flags s) as [[[?|]|?|?] ?] eqn:Hload;
      simpl in Hev, Herr;
      destruct Hev as [->|(? & ? & ->)];
      simpl;
      try match goal with
          | |- context [lockbox_Write W filename ?r ?pw] =>
              let Hwrite := fresh "Hwrite" in
              destruct (lockbox_Write W filename r pw) eqn:Hwrite
          end;
      simpl
  end.

Ltac RunE_open P W filename flags :=
  match goal with
  | |- context [lockbox_Open W filename ?pw] =>
      let Hopen := fresh "Hopen" in
      destruct (lockbox_Open W filename pw) eqn:Hopen;
      simpl;
      try RunE_load P W filename flags
  end.

Ltac RunE_cases P W filename flags :=
  let Himports := fresh "Himports" in
  let Hpip3 := fresh "Hpip3" in
  let Hpip := fresh "Hpip" in
  let Hflag := fresh "Hflag" in
  let Htyped := fresh "Htyped" in
  unfold RunE, ensurePyarrowInstalled;
  destruct (pyarrow_imports W) eqn:Himports;
    [|destruct (pip3_installs W) eqn:Hpip3; [|destruct (pip_installs W) eqn:Hpip]];
  simpl;
  try (destruct (String.eqb (flag_password flags) "") eqn:Hflag;
         [destruct (typed_password W) eqn:Htyped|];
       simpl;
       try RunE_open P W filename flags).

(** X16. The outcome of the command tells which calls were made on the
    lockbox. Rows are reported written only after one [Write] of the batch the
    chosen loader returned for the schema of the opened lockbox, with the
    password it was opened with, and that [Write] succeeded. A failure of
    pyarrow or of the password prompt happens before any call; an error or a
    panic of the loader leaves the lockbox unwritten; and the lockbox is
    closed after every successful [Open], also when the loader panics. A
    loader that returns neither batch nor error makes the command pass a nil
    batch to [Write] and crash. *)
Theorem lockbox_protocol (P : Platform) (W : World) (filename : string) (flags : Flags) :
  let calls := lockboxCalls (snd (RunE P W filename flags)) in
  let loaded pw r :=
    exists schema, lockbox_Open W filename pw = Some schema /\
                   fst (loadSource P W flags schema) = r in
  match fst (RunE P W filename flags) with
  | Done rows =>
      exists pw record,
        loaded pw (Ok (Some record)) /\ rows = rec_rows record /\
        lockbox_Write W filename (Some record) pw = true /\
        calls = [EvOpen filename pw; EvWrite (Some record) pw; EvClose]
  | Failed ErrWriteData =>
      exists pw record,
        loaded pw (Ok (Some record)) /\
        lockbox_Write W filename (Some record) pw = false /\
        calls = [EvOpen filename pw; EvWrite (Some record) pw; EvClose]
  | Failed ErrPyarrow | Failed ErrReadPassword => calls = []
  | Failed ErrOpenLockbox =>
      exists pw, lockbox_Open W filename pw = None /\ calls = [EvOpen filename pw]
  | Failed e =>
      exists pw, loaded pw (Err e) /\ calls = [EvOpen filename pw; EvClose]
  | Crashed (LoaderPanic p) =>
      exists pw, loaded pw (Panic p) /\ calls = [EvOpen filename pw; EvClose]
  | Crashed NilRecord =>
      exists pw, loaded pw (Ok None) /\
                 calls = [EvOpen filename pw; EvWrite None pw; EvClose]
  end.
Proof.
  unfold lockboxCalls.
  RunE_cases P W filename flags; try done;
    try match goal with
        | Herr : forall e', Err ?e = Err e' -> _ |- _ =>
            specialize (Herr _ eq_refl); destruct e; try done
        end;
    repeat first [ eexists | split | eassumption | reflexivity
                 | match goal with
                   | Hload : loadSource _ _ _ _ = _ |- _ => by rewrite Hload
                   end ].
Qed.

(** X17. Every run starts with the pyarrow check, whatever the source: the
    command fails with "could not ensure pyarrow is installed" exactly when
    the import check and both pip commands fail, also for [--sample] and for
    CSV input, and then it has run nothing else. When the import check
    succeeds no pip command is run. *)
Theorem pyarrow_required (P : Platform) (W : World) (filename : string) (flags : Flags) :
  let run := RunE P W filename flags in
  head (snd run) = Some EvCheckPyarrow /\
  (fst run = Failed ErrPyarrow <->
     pyarrow_imports W = false /\ pip3_installs W = false /\ pip_installs W = false) /\
  (fst run = Failed ErrPyarrow ->
     snd run = [EvCheckPyarrow; EvPip3Install; EvPipInstall]) /\
  (pyarrow_imports W = true -> List.filter isInstall (snd run) = []).
Proof.
  RunE_cases P W filename flags;
    (split; [reflexivity|]); (split; [split|split]);
    try done; try (intros (? & ? & ?); done);
    try match goal with
        | Herr : forall e', Err ?e = Err e' -> _ |- _ =>
            specialize (Herr _ eq_refl); intros Hf; inversion Hf; subst; done
        end.
Qed.

Lemma generateSampleData_result schema :
  generateSampleData schema =
    if forallb (fun f => sampleType (Type_ f)) (Fields schema)
    then Ok (mkRecord schema (map sampleColumn (Fields schema)) 5)
    else Panic (RecordInvalid "column type mismatch").
Proof.
  unfold generateSampleData, NewRecord, validate. simpl.
  rewrite length_map, Nat.eqb_refl. simpl.
  rewrite validate_sample_columns. by destruct (forallb _ _).
Qed.

(** X18. A run with [--sample], a password flag and pyarrow present reads no
    input: it opens the lockbox and, when every field of its schema is Int64,
    Int32, String or Float64, writes the five sample rows and reports five
    rows if the write succeeds. When the schema has a field of another type
    (a timestamp, a binary field) the command panics in [NewRecord]; nothing
    is written and the lockbox is closed. *)
Theorem sample_run (P : Platform) (W : World) (filename : string) (flags : Flags)
    (schema : Schema) :
  pyarrow_imports W = true ->
  flag_password flags <> ""%string ->
  flag_sample flags = true ->
  lockbox_Open W filename (flag_password flags) = Some schema ->
  let pw := flag_password flags in
  let sample := mkRecord schema (map sampleColumn (Fields schema)) 5 in
  RunE P W filename flags =
    if forallb (fun f => sampleType (Type_ f)) (Fields schema)
    then (if lockbox_Write W filename (Some sample) pw
          then Done 5 else Failed ErrWriteData,
          [EvCheckPyarrow; EvOpen filename pw; EvWrite (Some sample) pw; EvClose])
    else (Crashed (LoaderPanic (RecordInvalid "column type mismatch")),
          [EvCheckPyarrow; EvOpen filename pw; EvClose]).
Proof.
  intros Hpy Hpw Hsample Hopen. simpl.
  unfold RunE, ensurePyarrowInstalled, loadSource.
  rewrite Hpy, Hsample. simpl.
  destruct (String.eqb_spec (flag_password flags) ""); [done|].
  rewrite Hopen, generateSampleData_result.
  destruct (forallb _ _); simpl; [|done].
  by destruct (lockbox_Write W filename _ _).
Qed.

Lemma sample_run_witness :
  RunE examplePlatform
    (mkWorld true false false None (fun _ _ => Some (tsSchema Second)) (fun _ _ _ => true)
       (fun _ => None) (fun _ => None) ∅ (fun _ _ => false) (fun _ => PqOpenFails))
    "events.lockbox" (mkFlags "" "pw" true "" [])
  = (Crashed (LoaderPanic (RecordInvalid "column type mismatch")),
     [EvCheckPyarrow; EvOpen "events.lockbox" "pw"; EvClose]).
Proof.
  exact (sample_run examplePlatform
    (mkWorld true false false None (fun _ _ => Some (tsSchema Second)) (fun _ _ _ => true)
       (fun _ => None) (fun _ => None) ∅ (fun _ _ => false) (fun _ => PqOpenFails))
    "events.lockbox" (mkFlags "" "pw" true "" []) (tsSchema Second)
    eq_refl ltac:(done) eq_refl eq_refl).
Defined.

(** * The CSV and the JSON loader on the same text *)

Lemma sameOutcome_refl {A} (r : res A) : sameOutcome r r.
Proof. by destruct r. Qed.

Lemma sameOutcome_bind {A B} (r1 r2 : res A) (k1 k2 : A -> res B) :
  sameOutcome r1 r2 -> (forall a, sameOutcome (k1 a) (k2 a)) ->
  sameOutcome (bind r1 k1) (bind r2 k2).
Proof.
  intros Hr Hk. destruct r1, r2; simpl in *; try done. subst. apply Hk.
Qed.

Lemma cell_agree P schema rowJ rowC rec i field val bs :
  Fields schema !! i = Some field ->
  rec !! Name field = Some (JString val) ->
  sameOutcome (jsonCell P rowJ rec i field bs) (csvCell P schema rowC i val bs).
Proof.
  intros Hi Hrec. unfold jsonCell, csvCell. rewrite Hi, Hrec.
  destruct (Type_ field); try done;
    destruct (String.eqb val "" && Nullable field);
    try apply sameOutcome_refl.
  - destruct (ParseInt val 64); [apply sameOutcome_refl|done].
  - destruct (ParseInt val 32); [apply sameOutcome_refl|done].
  - destruct (ParseFloat P val); [apply sameOutcome_refl|done].
  - destruct (time_Parse P val); [apply sameOutcome_refl|done].
Qed.

Lemma row_agree P schema rowJ rowC rec : forall fields row i bs,
  length row = length fields ->
  (forall j field, fields !! j = Some field ->
     Fields schema !! (i + j) = Some field /\
     exists val, row !! j = Some val /\ rec !! Name field = Some (JString val)) ->
  sameOutcome (rangeFrom (jsonCell P rowJ rec) i fields bs)
              (rangeFrom (csvCell P schema rowC) i row bs).
Proof.
  induction fields as [|field fields IH]; intros [|val row] i bs Hlen H;
    simpl in Hlen; try done.
  destruct (H 0 field eq_refl) as (Hi & val' & Hval & Hrec).
  rewrite Nat.add_0_r in Hi. simpl in Hval. inversion Hval; subst val'.
  simpl. apply sameOutcome_bind; [by apply cell_agree|].
  intros bs'. apply IH; [lia|].
  intros j f Hj. specialize (H (S j) f Hj).
  by rewrite Nat.add_succ_r in H.
Qed.

Lemma rows_agree P schema : forall objs rows rowJ rowC bs,
  Forall2 (textRow schema) objs rows ->
  sameOutcome
    (rangeFrom (jsonRecord P schema) rowJ objs bs)
    (csvRows P schema rowC (Z.of_nat (length (Fields schema))) (map CSVFields rows) bs).
Proof.
  intros objs rows rowJ rowC bs H. revert rowJ rowC bs.
  induction H as [|rec row objs rows [Hlen Hrow] _ IH]; intros rowJ rowC bs; [done|].
  simpl. unfold readLine, Read. simpl.
  assert (Hread :
    (if 0 <? Z.of_nat (length (Fields schema))
     then if negb (Z.of_nat (length row) =? Z.of_nat (length (Fields schema)))
          then (ReadError ErrFieldCount,
                mkReader (Z.of_nat (length (Fields schema))) [])
          else (ReadRecord row, mkReader (Z.of_nat (length (Fields schema))) [])
     else if Z.of_nat (length (Fields schema)) =? 0
          then (ReadRecord row, mkReader (Z.of_nat (length row)) [])
          else (ReadRecord row, mkReader (Z.of_nat (length (Fields schema))) []))%Z
    = (ReadRecord row, mkReader (Z.of_nat (length (Fields schema))) [])).
  { rewrite Hlen, Z.eqb_refl. simpl.
    destruct (0 <? _)%Z; [done|]. by destruct (_ =? 0)%Z. }
  rewrite Hread. simpl. rewrite Hlen, Nat.eqb_refl. simpl.
  apply sameOutcome_bind; [|intros bs'; apply IH].
  unfold jsonRecord, csvRow, forRange. apply row_agree; [done|].
  intros j field Hj. split; [done|]. by apply Hrow.
Qed.

(** X19. Text means the same in both file formats: a JSON array of objects
    that hold every field as a string loads exactly as the CSV file whose
    rows hold the same strings in schema order (under a header of as many
    fields as the schema). Both loaders return the same batch, or both fail. *)
Theorem json_text_as_csv (P : Platform) (schema : Schema) (header : list string)
    (objs : list (gmap string JValue)) (rows : list (list string)) (canSeek : bool) :
  length header = length (Fields schema) ->
  Forall2 (textRow schema) objs rows ->
  sameOutcome
    (loadDataFromJSON P (Some (mkJSONText [JArray (map JObject objs)] false, canSeek)) schema)
    (loadDataFromFile P (Some (CSVFields header :: map CSVFields rows)) schema).
Proof.
  intros Hheader Hrows. rewrite csvRows_header, Hheader.
  unfold loadDataFromJSON.
  apply sameOutcome_bind; [apply sameOutcome_refl|]. intros bs.
  rewrite (readRecords_first_value _ [] false canSeek objs)
    by (simpl; apply mapM_asMap_objects).
  cbn [bind]. apply sameOutcome_bind; [|intros; apply sameOutcome_refl].
  unfold jsonRecords, forRange. by apply rows_agree.
Qed.

Lemma json_text_as_csv_witness :
  sameOutcome
    (loadDataFromJSON examplePlatform
       (Some (mkJSONText
                [JArray [JObject {[ "id"%string := JString "1"; "age"%string := JString "20" ]};
                         JObject {[ "id"%string := JString "2"; "age"%string := JString "" ]}]]
                false, true))
       (idAgeSchema true))
    (loadDataFromFile examplePlatform
       (Some [CSVFields ["id"; "age"]; CSVFields ["1"; "20"]; CSVFields ["2"; ""]])
       (idAgeSchema true)) /\
  loadDataFromFile examplePlatform
       (Some [CSVFields ["id"; "age"]; CSVFields ["1"; "20"]; CSVFields ["2"; ""]])
       (idAgeSchema true) = Ok batchA.
Proof.
  split; [|vm_compute; reflexivity].
  apply (json_text_as_csv examplePlatform (idAgeSchema true) ["id"; "age"]
           [ {[ "id"%string := JString "1"; "age"%string := JString "20" ]};
             {[ "id"%string := JString "2"; "age"%string := JString "" ]} ]
           [["1"; "20"]; ["2"; ""]] true eq_refl).
  repeat (apply List.Forall2_cons;
          [split; [reflexivity|];
           intros [|[|i]] field Hi; simpl in Hi; inversion Hi; subst;
           eexists; (split; [reflexivity|vm_compute; reflexivity])|]).
  apply List.Forall2_nil.
Defined.
